(** * dtrader-crypto 2.0: the typed event bus and the shutdown coordination

    A shallow embedding of
      - [EventBus]         (core/EventBus.ts, on top of Node's [EventEmitter]),
      - [EventBusLogger]   (utils/Logger.ts, the part the bus calls),
      - [TerminalManager]  (core/TerminalManager.ts),
      - [DTraderCrypto]    (index.ts).

    Stateful code is written in explicit state-passing style over a [World]
    (the bus, the ordered trace of observable actions, and the rest of the
    program state).  A call ends in one of four ways, see [Outcome]: it
    returns, it throws, it terminates the process ([process.exit]) or it
    does not return. *)

From Stdlib Require Import String DecimalString List ZArith Bool Arith Lia.
Import ListNotations.
Open Scope string_scope.
Open Scope list_scope.
Open Scope nat_scope.

(** ** Values and observable actions *)

(** What a JavaScript [throw] can carry.  The catch clause of [emitTyped]
    casts the caught value to [Error] without a check, so the shapes are
    kept apart: an [Error] object, [null], [undefined], any other value
    (with its [String(...)] form). *)
Inductive Thrown : Type :=
| ErrorObj (name message : string)
| Null
| Undefined
| Primitive (repr : string).

(** Arguments handed to listeners. *)
Inductive Value : Type :=
| VNum (z : Z)
| VStr (s : string)
| VErr (e : Thrown)
| VAny (tag : nat).

(** The keys of the interface [AppEvents]: the event kinds the typed
    methods accept. *)
Inductive AppEvent : Type :=
| app_start | app_stop | app_error
| terminal_exit | terminal_key | terminal_resize
| config_loaded | config_error
| engine_start | engine_stop | engine_error
| trading_signal | trading_order | trading_position.

Definition AppEvent_eq_dec : forall x y : AppEvent, {x = y} + {x <> y}.
Proof. decide equality. Defined.

Definition eventName (k : AppEvent) : string :=
  match k with
  | app_start => "app:start" | app_stop => "app:stop" | app_error => "app:error"
  | terminal_exit => "terminal:exit" | terminal_key => "terminal:key"
  | terminal_resize => "terminal:resize"
  | config_loaded => "config:loaded" | config_error => "config:error"
  | engine_start => "engine:start" | engine_stop => "engine:stop"
  | engine_error => "engine:error"
  | trading_signal => "trading:signal" | trading_order => "trading:order"
  | trading_position => "trading:position"
  end.

(** winston levels used by the modelled code. *)
Inductive Level : Type := LError | LWarn | LInfo | LDebug.

(** Kinds of text the terminal manager writes. *)
Inductive Screen : Type :=
| ScrClear | ScrWelcome | ScrShutdown | ScrGoodbye
| ScrInfo (text : string)
| ScrError (text : string) (detail : option string)
| ScrKey (keyName : string).

(** One observable action.  The trace of a world lists them oldest first.
    [Log] is one call of a winston logger (its metadata object is left out),
    [Render] the terminal-kit writes of one display method, [GrabInput] a
    call of [term.grabInput], [OnKey] the attachment of the key handler,
    [ProcessWarning] Node's [process.emitWarning] for a listener leak,
    [SetTimeout] the scheduling of the deferred exit callback. *)
Inductive Action : Type :=
| Log (category : string) (level : Level) (message : string)
| Render (s : Screen)
| GrabInput (on : bool)
| OnKey
| ProcessWarning (event : string) (count : nat)
| SetTimeout (ms : nat).

Module Bus.

Section EventBus.

(** The program state outside the bus, and the identities of listener
    functions (JavaScript compares them by reference). *)
Context {U L : Type}.
Variable L_eq_dec : forall x y : L, {x = y} + {x <> y}.

(** A registration in a listener array: the function, and for a
    registration made by [once] the identity of its wrapper. *)
Record Reg : Type := mkReg { target : L; wrapper : option nat }.

(** The value stored under one key of [_events]: the listener array and
    its [warned] mark. *)
Record Entry : Type := mkEntry { regs : list Reg; warned : bool }.

(** The emitter.  The typed methods can only reach the keys of
    [AppEvents]; the keys 'error', 'newListener' and 'removeListener'
    only ever hold the bookkeeping listener the constructor installs, so
    each is one flag.  [events] keeps the typed keys in insertion order,
    a key being present exactly while it has a listener.  [fired] holds
    the [once] wrappers that have run, [emitWrapped] says whether
    [setupEventLogging] has replaced [emit]. *)
Record Emitter : Type := mkEmitter {
  maxListeners : nat;
  enableLogging : bool;
  emitWrapped : bool;
  onError : bool;
  onNewListener : bool;
  onRemoveListener : bool;
  events : list (AppEvent * Entry);
  fired : list nat;
  nextWrapper : nat
}.

Record World : Type := mkWorld {
  bus : Emitter;
  trace : list Action;
  user : U
}.

Inductive Outcome (A : Type) : Type :=
| Normal (a : A) (w : World)
| Throws (e : Thrown) (w : World)
| Exits (code : Z) (w : World)
| Diverges.
Arguments Normal {A} a w.
Arguments Throws {A} e w.
Arguments Exits {A} code w.
Arguments Diverges {A}.

Definition bind {A B : Type} (o : Outcome A) (f : A -> World -> Outcome B)
  : Outcome B :=
  match o with
  | Normal a w => f a w
  | Throws e w => Throws e w
  | Exits c w => Exits c w
  | Diverges => Diverges
  end.

(** What a listener does when it is called. *)
Variable behave : L -> list Value -> World -> Outcome unit.

(** *** State updates *)

(** Appending at the end of a trace. *)
Definition snoc {A : Type} (l : list A) (a : A) : list A := l ++ [a].

Definition push (a : Action) (w : World) : World :=
  mkWorld (bus w) (snoc (trace w) a) (user w).

Definition setBus (b : Emitter) (w : World) : World :=
  mkWorld b (trace w) (user w).

Definition setEvents (ev : list (AppEvent * Entry)) (b : Emitter) : Emitter :=
  mkEmitter (maxListeners b) (enableLogging b) (emitWrapped b)
            (onError b) (onNewListener b) (onRemoveListener b)
            ev (fired b) (nextWrapper b).

Definition setInternal (e n r : bool) (b : Emitter) : Emitter :=
  mkEmitter (maxListeners b) (enableLogging b) (emitWrapped b)
            e n r (events b) (fired b) (nextWrapper b).

Definition setFired (id : nat) (b : Emitter) : Emitter :=
  mkEmitter (maxListeners b) (enableLogging b) (emitWrapped b)
            (onError b) (onNewListener b) (onRemoveListener b)
            (events b) (id :: fired b) (nextWrapper b).

Definition freshWrapper (b : Emitter) : Emitter :=
  mkEmitter (maxListeners b) (enableLogging b) (emitWrapped b)
            (onError b) (onNewListener b) (onRemoveListener b)
            (events b) (fired b) (S (nextWrapper b)).

(** *** The [_events] object restricted to the typed keys *)

Fixpoint lookup (k : AppEvent) (ev : list (AppEvent * Entry)) : option Entry :=
  match ev with
  | [] => None
  | (k', e) :: rest => if AppEvent_eq_dec k k' then Some e else lookup k rest
  end.

(** Assignment [events[k] = e]: in place for an existing key, at the end
    for a new one. *)
Fixpoint store (k : AppEvent) (e : Entry) (ev : list (AppEvent * Entry))
  : list (AppEvent * Entry) :=
  match ev with
  | [] => [(k, e)]
  | (k', e') :: rest =>
      if AppEvent_eq_dec k k' then (k, e) :: rest else (k', e') :: store k e rest
  end.

(** [delete events[k]] *)
Fixpoint delete (k : AppEvent) (ev : list (AppEvent * Entry))
  : list (AppEvent * Entry) :=
  match ev with
  | [] => []
  | (k', e') :: rest =>
      if AppEvent_eq_dec k k' then delete k rest else (k', e') :: delete k rest
  end.

Definition listeners (k : AppEvent) (w : World) : list Reg :=
  match lookup k (events (bus w)) with
  | Some e => regs e
  | None => []
  end.

Definition listenerCount (k : AppEvent) (w : World) : nat :=
  length (listeners k w).

(** *** EventBusLogger *)

Definition logEvent (name : string) (w : World) : World :=
  push (Log "eventbus" LDebug ("Событие: " ++ name)%string) w.

Definition logListenerAdd (name : string) (w : World) : World :=
  push (Log "eventbus" LDebug ("Добавлен слушатель для: " ++ name)%string) w.

Definition logListenerRemove (name : string) (w : World) : World :=
  push (Log "eventbus" LDebug ("Удален слушатель для: " ++ name)%string) w.

(** [logError] reads [error.name], [error.message] and [error.stack]:
    on [null] or [undefined] the first read raises a TypeError. *)
Definition logError (name : string) (err : Thrown) (w : World) : Outcome unit :=
  match err with
  | Null | Undefined =>
      Throws (ErrorObj "TypeError" "Cannot read properties of null or undefined") w
  | _ => Normal tt (push (Log "eventbus" LError ("Ошибка в событии: " ++ name)%string) w)
  end.

(** *** EventEmitter: the bookkeeping channels *)

(** The replaced [emit] of [setupEventLogging] logs before it dispatches. *)
Definition emitPrologue (name : string) (w : World) : World :=
  if emitWrapped (bus w) then logEvent name w else w.

(** [emit('newListener', name, fn)]: the bookkeeping listener logs. *)
Definition emitNewListener (name : string) (w : World) : World :=
  if onNewListener (bus w)
  then logListenerAdd name (emitPrologue "newListener" w)
  else w.

(** [emit('removeListener', name, fn)]. *)
Definition emitRemoveListener (name : string) (w : World) : World :=
  if onRemoveListener (bus w)
  then logListenerRemove name (emitPrologue "removeListener" w)
  else w.

(** *** EventEmitter: [_addListener] *)

Definition addListener (k : AppEvent) (r : Reg) (w : World) : World :=
  let w1 := emitNewListener (eventName k) w in
  let b := bus w1 in
  match lookup k (events b) with
  | None =>
      setBus (setEvents (store k (mkEntry [r] false) (events b)) b) w1
  | Some e =>
      let rs := (regs e ++ [r])%list in
      (* a second listener turns the stored function into a new array *)
      let wasWarned := if Nat.eqb (length (regs e)) 1 then false else warned e in
      let m := maxListeners b in
      if (0 <? m) && (m <? length rs) && negb wasWarned
      then push (ProcessWarning (eventName k) (length rs))
             (setBus (setEvents (store k (mkEntry rs true) (events b)) b) w1)
      else setBus (setEvents (store k (mkEntry rs wasWarned) (events b)) b) w1
  end.

Definition on (k : AppEvent) (f : L) (w : World) : World :=
  addListener k (mkReg f None) w.

Definition once (k : AppEvent) (f : L) (w : World) : World :=
  let id := nextWrapper (bus w) in
  addListener k (mkReg f (Some id)) (setBus (freshWrapper (bus w)) w).

(** *** EventEmitter: [removeListener] *)

(** Position of the last element that satisfies [p]: the backward scan
    [for (i = list.length - 1; i >= 0; i--)]. *)
Fixpoint lastIndex {A : Type} (p : A -> bool) (l : list A) : option nat :=
  match l with
  | [] => None
  | x :: rest =>
      match lastIndex p rest with
      | Some i => Some (S i)
      | None => if p x then Some 0 else None
      end
  end.

Definition spliceOne {A : Type} (l : list A) (i : nat) : list A :=
  (firstn i l ++ skipn (S i) l)%list.

Definition removeMatching (k : AppEvent) (p : Reg -> bool) (w : World) : World :=
  let b := bus w in
  match lookup k (events b) with
  | None => w
  | Some e =>
      match lastIndex p (regs e) with
      | None => w
      | Some i =>
          let rs := spliceOne (regs e) i in
          let ev :=
            match rs with
            | [] => delete k (events b)
            | [_] => store k (mkEntry rs false) (events b)
            | _ => store k (mkEntry rs (warned e)) (events b)
            end in
          emitRemoveListener (eventName k) (setBus (setEvents ev b) w)
      end
  end.

(** [list[i] === f || list[i].listener === f] *)
Definition matchesListener (f : L) (r : Reg) : bool :=
  if L_eq_dec (target r) f then true else false.

Definition matchesWrapper (id : nat) (r : Reg) : bool :=
  match wrapper r with
  | Some id' => Nat.eqb id id'
  | None => false
  end.

Definition off (k : AppEvent) (f : L) (w : World) : World :=
  removeMatching k (matchesListener f) w.

(** *** EventEmitter: [emit] *)

Record Call : Type := mkCall { callee : Reg; cargs : list Value }.

Definition isFired (id : nat) (w : World) : bool :=
  existsb (Nat.eqb id) (fired (bus w)).

(** Calling one element of the listener array.  A plain registration is
    the function itself; a [once] registration is the wrapper, which
    does nothing when it has already run and otherwise removes itself,
    marks itself and calls the function. *)
Definition invoke (k : AppEvent) (r : Reg) (args : list Value) (w : World)
  : list Call * Outcome unit :=
  match wrapper r with
  | None => ([mkCall r args], behave (target r) args w)
  | Some id =>
      if isFired id w then ([], Normal tt w)
      else
        let w1 := removeMatching k (matchesWrapper id) w in
        let w2 := setBus (setFired id (bus w1)) w1 in
        ([mkCall r args], behave (target r) args w2)
  end.

(** The loop over the copy of the listener array.  The first component
    lists the calls the loop made, in order. *)
Fixpoint callAll (k : AppEvent) (rs : list Reg) (args : list Value) (w : World)
  : list Call * Outcome unit :=
  match rs with
  | [] => ([], Normal tt w)
  | r :: rest =>
      match invoke k r args w with
      | (cs, Normal _ w') =>
          let (cs', o) := callAll k rest args w' in ((cs ++ cs')%list, o)
      | (cs, o) => (cs, o)
      end
  end.

Definition originalEmit (k : AppEvent) (args : list Value) (w : World)
  : list Call * Outcome bool :=
  match lookup k (events (bus w)) with
  | None => ([], Normal false w)
  | Some e =>
      let (cs, o) := callAll k (regs e) args w in
      (cs, bind o (fun _ w' => Normal true w'))
  end.

Definition emit (k : AppEvent) (args : list Value) (w : World)
  : list Call * Outcome bool :=
  originalEmit k args (emitPrologue (eventName k) w).

(** *** EventBus *)

Definition emitTyped (k : AppEvent) (args : list Value) (w : World)
  : list Call * Outcome bool :=
  let (cs, o) := emit k args w in
  (cs,
   match o with
   | Throws err w' => bind (logError (eventName k) err w') (fun _ w'' => Normal false w'')
   | _ => o
   end).

Definition onTyped (k : AppEvent) (f : L) (w : World) : World := on k f w.
Definition onceTyped (k : AppEvent) (f : L) (w : World) : World := once k f w.
Definition offTyped (k : AppEvent) (f : L) (w : World) : World := off k f w.

Definition hasListeners (k : AppEvent) (w : World) : bool :=
  0 <? listenerCount k w.

(** *** EventEmitter: [removeAllListeners], [eventNames] *)

(** All the keys [_events] can hold. *)
Inductive Key : Type :=
| KError | KNewListener | KRemoveListener
| KApp (k : AppEvent).

Definition keyName (key : Key) : string :=
  match key with
  | KError => "error"
  | KNewListener => "newListener"
  | KRemoveListener => "removeListener"
  | KApp k => eventName k
  end.

Definition listenerCountKey (key : Key) (w : World) : nat :=
  match key with
  | KError => if onError (bus w) then 1 else 0
  | KNewListener => if onNewListener (bus w) then 1 else 0
  | KRemoveListener => if onRemoveListener (bus w) then 1 else 0
  | KApp k => listenerCount k w
  end.

(** [Reflect.ownKeys(_events)]: insertion order.  The bookkeeping keys are
    inserted by the constructor, before any typed key, and never again. *)
Definition eventNames (w : World) : list Key :=
  (if onError (bus w) then [KError] else [])
  ++ (if onNewListener (bus w) then [KNewListener] else [])
  ++ (if onRemoveListener (bus w) then [KRemoveListener] else [])
  ++ map (fun p => KApp (fst p)) (events (bus w)).

(** [removeAllListeners(k)] walks the array backwards and removes each
    element with [removeListener]; every step removes the last element. *)
Fixpoint removeLast (k : AppEvent) (n : nat) (w : World) : World :=
  match n with
  | 0 => w
  | S n' => removeLast k n' (removeMatching k (fun _ => true) w)
  end.

Definition removeAllOf (k : AppEvent) (w : World) : World :=
  removeLast k (listenerCount k w) w.

Definition removeAllListeners (w : World) : World :=
  let b := bus w in
  if onRemoveListener b then
    let w1 :=
      if onError b
      then emitRemoveListener "error"
             (setBus (setInternal false (onNewListener b) true b) w)
      else w in
    let w2 :=
      if onNewListener (bus w1)
      then emitRemoveListener "newListener"
             (setBus (setInternal false false true (bus w1)) w1)
      else w1 in
    let w3 :=
      fold_left (fun w' k => removeAllOf k w') (map fst (events (bus w2))) w2 in
    setBus (setEvents [] (setInternal false false false (bus w3))) w3
  else setBus (setEvents [] (setInternal false false false b)) w.

(** *** EventBus: constructor, introspection, cleanup *)

Definition defaultMaxListeners : nat := 50.

(** [this.on(name, fn)] for a bookkeeping key. *)
Definition onInternal (key : Key) (w : World) : World :=
  let w1 := emitNewListener (keyName key) w in
  let b := bus w1 in
  match key with
  | KError => setBus (setInternal true (onNewListener b) (onRemoveListener b) b) w1
  | KNewListener => setBus (setInternal (onError b) true (onRemoveListener b) b) w1
  | KRemoveListener => setBus (setInternal (onError b) (onNewListener b) true b) w1
  | KApp _ => w1
  end.

Definition setupErrorHandling (w : World) : World :=
  onInternal KRemoveListener (onInternal KNewListener (onInternal KError w)).

Definition setupEventLogging (w : World) : World :=
  let b := bus w in
  if enableLogging b
  then setBus (mkEmitter (maxListeners b) (enableLogging b) true
                 (onError b) (onNewListener b) (onRemoveListener b)
                 (events b) (fired b) (nextWrapper b)) w
  else w.

(** [new EventBus(maxListeners, enableLogging)], in a process whose other
    state is [u]. *)
Definition construct (maxL : nat) (logging : bool) (u : U) : World :=
  logEvent "eventbus:initialized"
    (setupEventLogging
       (setupErrorHandling
          (mkWorld (mkEmitter maxL logging false false false false [] [] 0) [] u))).

Definition getListenersInfo (w : World) : list (string * nat) * World :=
  (map (fun key => (keyName key, listenerCountKey key w)) (eventNames w),
   logEvent "eventbus:stats" w).

Definition cleanup (w : World) : World :=
  removeAllListeners (logEvent "eventbus:cleanup" w).

(** Publishing one kind several times in a row, while the calls return. *)
Fixpoint publishMany (k : AppEvent) (argss : list (list Value)) (w : World)
  : list Call :=
  match argss with
  | [] => []
  | args :: rest =>
      match emitTyped k args w with
      | (cs, Normal _ w') => cs ++ publishMany k rest w'
      | (cs, _) => cs
      end
  end.

(** *** Predicates used in the statements *)

(** Every stored key holds at least one listener. *)
Definition wellFormed (w : World) : Prop :=
  forall k e, lookup k (events (bus w)) = Some e -> regs e <> [].

Definition returnsNormally (f : L) : Prop :=
  forall args w, exists w', behave f args w = Normal tt w'.

(** A registration made by [on] (no wrapper) whose function returns. *)
Definition wellBehaved (r : Reg) : Prop :=
  wrapper r = None /\ returnsNormally (target r).

Definition worldOf {A : Type} (o : Outcome A) : option World :=
  match o with
  | Normal _ w => Some w
  | Throws _ w => Some w
  | Exits _ w => Some w
  | Diverges => None
  end.

Definition firedIn {A : Type} (id : nat) (o : Outcome A) : Prop :=
  match worldOf o with
  | Some w => isFired id w = true
  | None => True
  end.

Definition viaWrapper (id : nat) (c : Call) : bool := matchesWrapper id (callee c).
Definition toListener (f : L) (c : Call) : bool := matchesListener f (callee c).

Definition callsVia (id : nat) (cs : list Call) : nat :=
  length (filter (viaWrapper id) cs).

Definition callsTo (f : L) (cs : list Call) : nat :=
  length (filter (toListener f) cs).

Definition registrationsOf (f : L) (rs : list Reg) : nat :=
  length (filter (matchesListener f) rs).

Definition isLog (a : Action) : bool :=
  match a with Log _ _ _ => true | _ => false end.

Definition isProcessWarning (a : Action) : bool :=
  match a with ProcessWarning _ _ => true | _ => false end.

(** The [warned] mark the leak check of [_addListener] reads for [k]. *)
Definition wasWarned (k : AppEvent) (w : World) : bool :=
  match lookup k (events (bus w)) with
  | Some e => if Nat.eqb (length (regs e)) 1 then false else warned e
  | None => false
  end.

End EventBus.

Arguments Reg : clear implicits.
Arguments Entry : clear implicits.
Arguments Emitter : clear implicits.
Arguments World : clear implicits.
Arguments Outcome : clear implicits.
Arguments Call : clear implicits.
Arguments Normal {U L A} a w.
Arguments Throws {U L A} e w.
Arguments Exits {U L A} code w.
Arguments Diverges {U L A}.

End Bus.

(** ** The terminal manager and the application class *)

Module Lifecycle.

Import Bus.

(** The listener functions the two classes hand to [onTyped].  Every
    [this.method.bind(this)] is a function object of its own. *)
Inductive Handler : Type :=
| TM_handleAppStart | TM_handleAppStop | TM_handleExit
| App_handleAppStart | App_handleAppStop | App_handleAppError
| App_handleExit | App_handleTerminalKey | App_handleTerminalResize.

Definition Handler_eq_dec : forall x y : Handler, {x = y} + {x <> y}.
Proof. decide equality. Defined.

Record AppConfig : Type := mkAppConfig {
  cfg_name : string;
  cfg_version : string;
  cfg_environment : string
}.

Record TerminalConfig : Type := mkTerminalConfig {
  colors : bool;
  unicode : bool;
  grabInput : bool;
  mouse : bool
}.

Record SessionInfo : Type := mkSessionInfo {
  ses_id : string;
  ses_startTime : Z;
  ses_version : string;
  ses_environment : string
}.

(** The fields of the two objects, and the pending [setTimeout] callbacks
    (each is the exit callback of [TerminalManager.gracefulShutdown],
    listed with its delay in milliseconds, oldest first). *)
Record Proc : Type := mkProc {
  isRunning : bool;
  startTime : bool;
  config : AppConfig;
  isInputGrabbed : bool;
  isInitialized : bool;
  tconfig : TerminalConfig;
  sessionInfo : SessionInfo;
  timers : list nat
}.

Definition World : Type := Bus.World Proc Handler.
Definition Outcome (A : Type) : Type := Bus.Outcome Proc Handler A.
Definition Behaviour : Type := Handler -> list Value -> World -> Outcome unit.

Definition setProc (p : Proc) (w : World) : World :=
  mkWorld (bus w) (trace w) p.

Definition setIsRunning (b : bool) (w : World) : World :=
  let p := user w in
  setProc (mkProc b (startTime p) (config p) (isInputGrabbed p)
             (isInitialized p) (tconfig p) (sessionInfo p) (timers p)) w.

Definition setStartTime (w : World) : World :=
  let p := user w in
  setProc (mkProc (isRunning p) true (config p) (isInputGrabbed p)
             (isInitialized p) (tconfig p) (sessionInfo p) (timers p)) w.

Definition setIsInputGrabbed (b : bool) (w : World) : World :=
  let p := user w in
  setProc (mkProc (isRunning p) (startTime p) (config p) b
             (isInitialized p) (tconfig p) (sessionInfo p) (timers p)) w.

Definition setIsInitialized (b : bool) (w : World) : World :=
  let p := user w in
  setProc (mkProc (isRunning p) (startTime p) (config p) (isInputGrabbed p)
             b (tconfig p) (sessionInfo p) (timers p)) w.

Definition setTimers (t : list nat) (w : World) : World :=
  let p := user w in
  setProc (mkProc (isRunning p) (startTime p) (config p) (isInputGrabbed p)
             (isInitialized p) (tconfig p) (sessionInfo p) t) w.

Definition isDevelopment (env : string) : bool := String.eqb env "development".

(** [error.stack || error.message], as far as the model keeps it. *)
Definition detailOf (e : Thrown) : string :=
  match e with
  | ErrorObj _ m => m
  | Null | Undefined => ""
  | Primitive r => r
  end.

(** [String(value)] for the values the handlers print. *)
Definition showValue (v : Value) : string :=
  match v with
  | VNum z => DecimalString.NilZero.string_of_int (Z.to_int z)
  | VStr s => s
  | VErr e => detailOf e
  | VAny _ => "[object Object]"
  end.

Definition tryCatch {A : Type} (o : Outcome A) (h : Thrown -> World -> Outcome A)
  : Outcome A :=
  match o with
  | Throws e w => h e w
  | _ => o
  end.

(** [Logger.errorWithContext]: the message is built from [error.message],
    so a [null] or [undefined] in place of the error raises a TypeError. *)
Definition errorWithContext (category : string) (error : Thrown)
  (context : string) (w : World) : Outcome unit :=
  match error with
  | Null | Undefined =>
      Throws (ErrorObj "TypeError" "Cannot read properties of null or undefined") w
  | _ =>
      Normal tt
        (push (Log category LError (context ++ ": " ++ detailOf error)%string) w)
  end.

(** [error instanceof Error ? error : new Error(String(error))] *)
Definition asError (v : Thrown) : Thrown :=
  match v with
  | ErrorObj _ _ => v
  | Null => ErrorObj "Error" "null"
  | Undefined => ErrorObj "Error" "undefined"
  | Primitive r => ErrorObj "Error" r
  end.

(** The exit callback's delay in [TerminalManager.gracefulShutdown]. *)
Definition exitDelay : nat := 80.

Module TerminalManager.

Definition logT (lvl : Level) (m : string) (w : World) : World :=
  push (Log "terminal" lvl m) w.

Definition showInfo (message : string) (w : World) : World :=
  logT LInfo "Отображено информационное сообщение"
    (push (Render (ScrInfo message)) w).

Definition showError (message : string) (error : Thrown) (w : World) : World :=
  let detail :=
    if isDevelopment (ses_environment (sessionInfo (user w)))
    then Some (detailOf error) else None in
  logT LError "Отображена ошибка пользователю"
    (push (Render (ScrError message detail)) w).

Definition showWelcomeScreen (w : World) : World :=
  logT LInfo "Приветственный экран отображен"
    (push (Render ScrWelcome) (push (Render ScrClear) w)).

Definition startKeyListener (w : World) : World :=
  if grabInput (tconfig (user w)) && negb (isInputGrabbed (user w))
  then logT LInfo "Прослушивание клавиатуры запущено"
         (push OnKey (setIsInputGrabbed true (push (GrabInput true) w)))
  else w.

Definition stopKeyListener (w : World) : World :=
  if isInputGrabbed (user w)
  then logT LInfo "Прослушивание клавиатуры остановлено"
         (setIsInputGrabbed false (push (GrabInput false) w))
  else w.

Definition showKeyPress (keyName : string) (w : World) : World :=
  push (Render (ScrKey keyName)) w.

Definition showShutdownMessage (w : World) : World :=
  push (Render ScrShutdown)
    (logT LInfo "Отображение сообщения о завершении" w).

Definition gracefulShutdown (w : World) : Outcome unit :=
  if negb (isInitialized (user w))
  then Exits 0%Z
         (logT LWarn "Попытка завершения неинициализированного терминала" w)
  else
    let w1 := logT LInfo "Начало корректного завершения работы" w in
    let w2 := stopKeyListener (showShutdownMessage w1) in
    let w3 := push (Render ScrGoodbye) w2 in
    Normal tt (setTimers (timers (user w3) ++ [exitDelay])
                 (push (SetTimeout exitDelay) w3)).

(** The callback handed to [setTimeout]. *)
Definition exitCallback (w : World) : Outcome unit :=
  Exits 0%Z (logT LInfo "Завершение процесса" w).

Definition handleAppStart (w : World) : World :=
  logT LInfo "Terminal Manager инициализирован"
    (setIsInitialized true
       (startKeyListener
          (showWelcomeScreen (logT LInfo "Обработка события app:start" w)))).

Definition handleAppStop (w : World) : World :=
  stopKeyListener
    (showShutdownMessage (logT LInfo "Обработка события app:stop" w)).

Definition handleExit (w : World) : Outcome unit :=
  gracefulShutdown (logT LInfo "Получен сигнал выхода" w).

(** The handler attached to the terminal's 'key' event. *)
Definition handleKeyPress (beh : Behaviour) (name : string) (w : World)
  : Outcome unit :=
  tryCatch
    (let w1 := logT LDebug "Нажата клавиша" w in
     if String.eqb name "CTRL_X" || String.eqb name "CTRL_C"
     then
       bind (snd (emitTyped beh terminal_exit []
                    (logT LInfo "Получена команда выхода" w1)))
            (fun _ w' => Normal tt w')
     else
       bind (snd (emitTyped beh terminal_key [VStr name; VAny 0] w1))
            (fun _ w' =>
               Normal tt
                 (if isDevelopment (ses_environment (sessionInfo (user w')))
                  then showKeyPress name w' else w')))
    (fun error w' => errorWithContext "terminal" error "handleKeyPress" w').

(** The handler attached to the terminal's 'resize' event. *)
Definition onResize (beh : Behaviour) (width height : Z) (w : World)
  : Outcome unit :=
  bind (snd (emitTyped beh terminal_resize [VNum width; VNum height]
               (logT LDebug "Изменение размера терминала" w)))
       (fun _ w' => Normal tt w').

Definition setupEventListeners (w : World) : World :=
  logT LDebug "Event listeners настроены"
    (onTyped terminal_exit TM_handleExit
       (onTyped app_stop TM_handleAppStop
          (onTyped app_start TM_handleAppStart w))).

(** The constructor, after the fields have been set: [setupTerminal] and
    [setupEventListeners]. *)
Definition construct (w : World) : World :=
  setupEventListeners
    (logT LInfo "Терминал настроен успешно"
       (logT LInfo "Инициализация TerminalManager" w)).

End TerminalManager.

Module DTraderCrypto.

Definition logA (lvl : Level) (m : string) (w : World) : World :=
  push (Log "app" lvl m) w.

Definition handleAppStart (w : World) : World :=
  TerminalManager.showInfo "Приложение успешно запущено"
    (logA LInfo "Приложение запущено" (setIsRunning true (setStartTime w))).

Definition handleAppStop (w : World) : World :=
  TerminalManager.showInfo "Остановка торгового бота..."
    (logA LInfo "Приложение остановлено" (setIsRunning false w)).

Definition handleAppError (error : Thrown) (w : World) : Outcome unit :=
  bind (errorWithContext "app" error "Ошибка приложения" w) (fun _ w' =>
  Normal tt (TerminalManager.showError "Ошибка приложения" error w')).

Definition handleTerminalKey (w : World) : World :=
  logA LDebug "Обработка нажатия клавиши" w.

Definition handleTerminalResize (width height : Value) (w : World) : World :=
  let w1 := logA LDebug "Изменение размера терминала" w in
  if isDevelopment (cfg_environment (config (user w1)))
  then TerminalManager.showInfo
         ("Размер терминала изменен: " ++ showValue width ++ "x"
            ++ showValue height)%string w1
  else w1.

Definition gracefulShutdown (beh : Behaviour) (w : World) : Outcome unit :=
  if negb (isRunning (user w))
  then Normal tt
         (logA LWarn "Попытка завершения уже остановленного приложения" w)
  else
    let w1 := logA LInfo "Начало корректного завершения работы"
                (setIsRunning false w) in
    bind (snd (emitTyped beh app_stop [] w1)) (fun _ w2 =>
    bind (TerminalManager.gracefulShutdown w2) (fun _ w3 =>
    Normal tt (logA LInfo "Корректное завершение завершено" (cleanup w3)))).

Definition handleExit (beh : Behaviour) (w : World) : Outcome unit :=
  gracefulShutdown beh (logA LInfo "Обработка выхода из приложения" w).

Definition start (beh : Behaviour) (w : World) : Outcome unit :=
  let nm := cfg_name (config (user w)) in
  tryCatch
    (bind (snd (emitTyped beh app_start []
                  (TerminalManager.showInfo ("Запуск " ++ nm ++ "...")%string
                     (logA LInfo ("Запуск " ++ nm)%string w))))
          (fun _ w' => Normal tt w'))
    (fun error w' =>
       let err := asError error in
       bind (errorWithContext "app" err "Ошибка при запуске приложения" w')
            (fun _ w1 =>
       bind (snd (emitTyped beh app_error [VErr err] w1))
            (fun _ w2 => Normal tt w2))).

(** The four handlers of [setupProcessHandlers]. *)
Definition onSignal (beh : Behaviour) (signal : string) (w : World)
  : Outcome unit :=
  bind (snd (emitTyped beh terminal_exit []
               (logA LWarn ("Получен сигнал " ++ signal)%string w)))
       (fun _ w' => Normal tt w').

Definition onUncaughtException (beh : Behaviour) (error : Thrown) (w : World)
  : Outcome unit :=
  gracefulShutdown beh
    (TerminalManager.showError "Необработанная ошибка" error
       (logA LError "Необработанное исключение" w)).

Definition onUnhandledRejection (beh : Behaviour) (reason : Thrown) (w : World)
  : Outcome unit :=
  gracefulShutdown beh
    (TerminalManager.showError "Необработанное отклонение Promise"
       (asError reason)
       (logA LError "Необработанное отклонение Promise" w)).

Definition setupEventListeners (w : World) : World :=
  logA LDebug "Event listeners настроены"
    (onTyped terminal_resize App_handleTerminalResize
       (onTyped terminal_key App_handleTerminalKey
          (onTyped terminal_exit App_handleExit
             (onTyped app_error App_handleAppError
                (onTyped app_stop App_handleAppStop
                   (onTyped app_start App_handleAppStart w)))))).

(** [new DTraderCrypto(eventBus)] on a bus whose world already carries the
    initial fields. *)
Definition construct (w : World) : World :=
  logA LDebug "Process handlers настроены"
    (setupEventListeners
       (TerminalManager.construct
          (logA LInfo "Создание экземпляра DTraderCrypto" w))).

Definition isAppRunning (w : World) : bool := isRunning (user w).

End DTraderCrypto.

(** What each registered function does.  The fuel bounds the nesting of
    listener calls inside listener calls; [Diverges] stands for its
    exhaustion. *)
Fixpoint behaviour (fuel : nat) (h : Handler) (args : list Value) (w : World)
  {struct fuel} : Outcome unit :=
  match fuel with
  | 0 => Diverges
  | S n =>
      match h with
      | TM_handleAppStart => Normal tt (TerminalManager.handleAppStart w)
      | TM_handleAppStop => Normal tt (TerminalManager.handleAppStop w)
      | TM_handleExit => TerminalManager.handleExit w
      | App_handleAppStart => Normal tt (DTraderCrypto.handleAppStart w)
      | App_handleAppStop => Normal tt (DTraderCrypto.handleAppStop w)
      | App_handleAppError =>
          DTraderCrypto.handleAppError
            (match args with VErr e :: _ => e | _ => Undefined end) w
      | App_handleExit => DTraderCrypto.handleExit (behaviour n) w
      | App_handleTerminalKey => Normal tt (DTraderCrypto.handleTerminalKey w)
      | App_handleTerminalResize =>
          Normal tt (DTraderCrypto.handleTerminalResize
                       (nth 0 args (VAny 0)) (nth 1 args (VAny 0)) w)
      end
  end.

(** *** The process as a transition system *)

(** What the environment can do to the process between two turns of the
    event loop. *)
Inductive Trigger : Type :=
| CallStart
| Sigint
| Sigterm
| UncaughtException (name message : string)
| UnhandledRejection (reason : Thrown)
| TermResize (width height : Z)
| TermKey (name : string)
| TimerFires.

(** A process is alive, or has exited with a status.  [Faulted] (an
    exception left a callback) and [Hung] (a callback did not return) close
    the type; neither is reachable, see [reachable_live_or_exit0]. *)
Inductive PState : Type :=
| Live (w : World)
| Dead (code : Z) (w : World)
| Faulted (e : Thrown) (w : World)
| Hung.

Definition settle (o : Outcome unit) : PState :=
  match o with
  | Normal _ w => Live w
  | Exits c w => Dead c w
  | Throws e w => Faulted e w
  | Diverges => Hung
  end.

Definition react (fuel : nat) (t : Trigger) (w : World) : Outcome unit :=
  let beh := behaviour fuel in
  match t with
  | CallStart => DTraderCrypto.start beh w
  | Sigint => DTraderCrypto.onSignal beh "SIGINT" w
  | Sigterm => DTraderCrypto.onSignal beh "SIGTERM" w
  | UncaughtException n m => DTraderCrypto.onUncaughtException beh (ErrorObj n m) w
  | UnhandledRejection r => DTraderCrypto.onUnhandledRejection beh r w
  | TermResize wd ht => TerminalManager.onResize beh wd ht w
  | TermKey name =>
      (* terminal-kit delivers keys only while input is grabbed *)
      if isInputGrabbed (user w)
      then TerminalManager.handleKeyPress beh name w
      else Normal tt w
  | TimerFires =>
      match timers (user w) with
      | [] => Normal tt w
      | _ :: rest => TerminalManager.exitCallback (setTimers rest w)
      end
  end.

Definition step (fuel : nat) (t : Trigger) (s : PState) : PState :=
  match s with
  | Live w => settle (react fuel t w)
  | _ => s
  end.

Definition run (fuel : nat) (ts : list Trigger) (s : PState) : PState :=
  fold_left (fun s' t => step fuel t s') ts s.

(** The process environment the constructors read. *)
Record Env : Type := mkEnv {
  NODE_ENV : option string;
  EVENT_BUS_MAX_LISTENERS : nat;
  npm_package_version : option string;
  TERMINAL_COLORS : bool;
  TERMINAL_UNICODE : bool;
  sessionId : string;
  now : Z
}.

(** [value || fallback] on an environment variable: unset and empty both
    give the fallback. *)
Definition orElse (o : option string) (d : string) : string :=
  match o with
  | Some s => if String.eqb s "" then d else s
  | None => d
  end.

(** The module-level [eventBus] followed by [new DTraderCrypto(eventBus)]. *)
Definition boot (env : Env) : World :=
  let environment := orElse (NODE_ENV env) "development" in
  let version := orElse (npm_package_version env) "2.0.0" in
  let p :=
    mkProc false false
      (mkAppConfig "dtrader-crypto 2.0" version environment)
      false false
      (mkTerminalConfig (TERMINAL_COLORS env) (TERMINAL_UNICODE env) true false)
      (mkSessionInfo (sessionId env) (now env) version environment)
      [] in
  DTraderCrypto.construct
    (Bus.construct (EVENT_BUS_MAX_LISTENERS env)
       (match NODE_ENV env with
        | Some e => isDevelopment e
        | None => false
        end) p).

Inductive reachable : PState -> Prop :=
| reach_boot : forall env, reachable (Live (boot env))
| reach_step : forall s t n, reachable s -> reachable (step (2 + n) t s).

(** The four states of the lifecycle, read off the process: it has exited;
    an exit is scheduled; the application flag is set; none of these. *)
Inductive Phase : Type := Idle | Running | Stopping | Stopped.

Definition phase (s : PState) : Phase :=
  match s with
  | Live w =>
      match timers (user w) with
      | _ :: _ => Stopping
      | [] => if isRunning (user w) then Running else Idle
      end
  | _ => Stopped
  end.

Definition isExitTrigger (t : Trigger) : bool :=
  match t with
  | Sigint | Sigterm => true
  | TermKey name => String.eqb name "CTRL_X" || String.eqb name "CTRL_C"
  | _ => false
  end.

Definition isFatalFault (t : Trigger) : bool :=
  match t with
  | UncaughtException _ _ | UnhandledRejection _ => true
  | _ => false
  end.

(** *** The shapes of the process between two triggers *)

(** The bus as the two constructors leave it, and as [cleanup] leaves it. *)
Definition wiredBus (mx : nat) (lg : bool) (p : Proc) : Emitter Handler :=
  bus (DTraderCrypto.construct (Bus.construct mx lg p)).

Definition clearedBus (mx : nat) (lg : bool) (p : Proc) : Emitter Handler :=
  bus (cleanup (DTraderCrypto.construct (Bus.construct mx lg p))).

Inductive Shape : Type := ShIdle | ShRunning | ShStopping.

Definition hasShape (sh : Shape) (w : World) : Prop :=
  grabInput (tconfig (user w)) = true
  /\ exists mx lg,
       match sh with
       | ShIdle =>
           bus w = wiredBus mx lg (user w)
           /\ isRunning (user w) = false /\ isInitialized (user w) = false
           /\ isInputGrabbed (user w) = false /\ timers (user w) = []
       | ShRunning =>
           bus w = wiredBus mx lg (user w)
           /\ isRunning (user w) = true /\ isInitialized (user w) = true
           /\ isInputGrabbed (user w) = true /\ timers (user w) = []
       | ShStopping =>
           bus w = clearedBus mx lg (user w)
           /\ isRunning (user w) = false /\ isInitialized (user w) = true
           /\ isInputGrabbed (user w) = false /\ timers (user w) <> []
       end.

Definition phaseOf (sh : Shape) : Phase :=
  match sh with
  | ShIdle => Idle
  | ShRunning => Running
  | ShStopping => Stopping
  end.

(** The transition table of the code: the shape after a trigger, [None]
    when the trigger ends the process. *)
Definition next (sh : Shape) (t : Trigger) : option Shape :=
  match sh with
  | ShIdle =>
      match t with
      | CallStart => Some ShRunning
      | Sigint | Sigterm => None
      | _ => Some ShIdle
      end
  | ShRunning =>
      if isExitTrigger t || isFatalFault t then Some ShStopping else Some ShRunning
  | ShStopping =>
      match t with
      | TimerFires => None
      | _ => Some ShStopping
      end
  end.

(** The actions of the shutdown sequence that release the input, reset the
    bus, and schedule the exit. *)
Definition isShutdownAction (a : Action) : bool :=
  match a with
  | GrabInput false => true
  | Log category _ message =>
      String.eqb category "eventbus" && String.eqb message "Событие: eventbus:cleanup"
  | SetTimeout _ => true
  | _ => false
  end.


Definition isErrorScreen (a : Action) : bool :=
  match a with
  | Render (ScrError _ _) => true
  | _ => false
  end.

Definition isInputRelease (a : Action) : bool :=
  match a with GrabInput false => true | _ => false end.

Definition isBusReset (a : Action) : bool :=
  match a with
  | Log category _ message =>
      String.eqb category "eventbus" && String.eqb message "Событие: eventbus:cleanup"
  | _ => false
  end.

Definition isExitScheduling (a : Action) : bool :=
  match a with SetTimeout _ => true | _ => false end.

Definition count (p : Action -> bool) (l : list Action) : nat :=
  length (filter p l).

Definition traceOf (s : PState) : list Action :=
  match s with
  | Live w => trace w
  | Dead _ w => trace w
  | Faulted _ w => trace w
  | Hung => []
  end.

(** How often one trigger makes the process release the input and reset
    the bus, and how many exit callbacks it schedules. *)
Definition shutdownsIn (sh : Shape) (t : Trigger) : nat :=
  match sh with
  | ShRunning => if isExitTrigger t || isFatalFault t then 1 else 0
  | _ => 0
  end.

Definition schedulingsIn (sh : Shape) (t : Trigger) : nat :=
  match sh with
  | ShRunning =>
      if isExitTrigger t then 2 else if isFatalFault t then 1 else 0
  | _ => 0
  end.

(** How often a process in a given shape has released the input and reset
    the bus so far. *)
Definition released (sh : Shape) : nat :=
  match sh with ShStopping => 1 | _ => 0 end.

End Lifecycle.

(** ** The objects behind [getConfig] and [getSessionInfo]

    The two accessors return [{ ...this.config }] and
    [{ ...this.sessionInfo }].  Whether the caller can reach the internal
    objects through the result is a question of object identity, so here the
    objects live in a store and are named by their addresses. *)

Module Objects.

Inductive PropValue : Type :=
| PStr (s : string)
| PRef (address : nat).

Inductive Object : Type :=
| DateObj (time : Z)
| Plain (props : list (string * PropValue)).

Definition Heap : Type := list Object.

(** The store, with the addresses held by the fields
    [DTraderCrypto.config] and [TerminalManager.sessionInfo]. *)
Record Store : Type := mkStore {
  heap : Heap;
  config : nat;
  sessionInfo : nat
}.

Definition alloc (o : Object) (h : Heap) : nat * Heap :=
  (length h, h ++ [o]).

Fixpoint replace (a : nat) (o : Object) (h : Heap) : Heap :=
  match h, a with
  | [], _ => []
  | _ :: rest, 0 => o :: rest
  | x :: rest, S a' => x :: replace a' o rest
  end.

Fixpoint setProp (name : string) (v : PropValue) (ps : list (string * PropValue))
  : list (string * PropValue) :=
  match ps with
  | [] => [(name, v)]
  | (n, v') :: rest =>
      if String.eqb n name then (n, v) :: rest else (n, v') :: setProp name v rest
  end.

Fixpoint removeProp (name : string) (ps : list (string * PropValue))
  : list (string * PropValue) :=
  match ps with
  | [] => []
  | (n, v') :: rest =>
      if String.eqb n name then rest else (n, v') :: removeProp name rest
  end.

(** [{ ...obj }]: a new object with the own enumerable properties of
    [obj], each value copied as it is (a reference stays a reference). *)
Definition spread (a : nat) (h : Heap) : Object :=
  match nth_error h a with
  | Some (Plain ps) => Plain ps
  | _ => Plain []
  end.

(** The constructors: [this.config = {...}] in [DTraderCrypto], then
    [this.sessionInfo = {..., startTime: new Date(), ...}] in
    [TerminalManager]. *)
Definition construct (name version environment id : string) (now : Z) : Store :=
  mkStore
    [ Plain [("name", PStr name); ("version", PStr version);
             ("environment", PStr environment)];
      DateObj now;
      Plain [("id", PStr id); ("startTime", PRef 1);
             ("version", PStr version); ("environment", PStr environment)] ]
    0 2.

Definition getConfig (st : Store) : nat * Store :=
  let (a, h) := alloc (spread (config st) (heap st)) (heap st) in
  (a, mkStore h (config st) (sessionInfo st)).

Definition getSessionInfo (st : Store) : nat * Store :=
  let (a, h) := alloc (spread (sessionInfo st) (heap st)) (heap st) in
  (a, mkStore h (config st) (sessionInfo st)).

(** [record[name] = v] and [delete record[name]] on the object at [a]. *)
Definition assign (a : nat) (name : string) (v : PropValue) (h : Heap) : Heap :=
  match nth_error h a with
  | Some (Plain ps) => replace a (Plain (setProp name v ps)) h
  | _ => h
  end.

Definition deleteProp (a : nat) (name : string) (h : Heap) : Heap :=
  match nth_error h a with
  | Some (Plain ps) => replace a (Plain (removeProp name ps)) h
  | _ => h
  end.

(** [record[name].setTime(t)]: an in-place change of the Date a property
    refers to. *)
Definition setTimeVia (a : nat) (name : string) (t : Z) (h : Heap) : Heap :=
  match nth_error h a with
  | Some (Plain ps) =>
      match find (fun p => String.eqb (fst p) name) ps with
      | Some (_, PRef d) =>
          match nth_error h d with
          | Some (DateObj _) => replace d (DateObj t) h
          | _ => h
          end
      | _ => h
      end
  | _ => h
  end.

(** A caller of the accessors: the store and the records it has been
    handed so far, oldest first. *)
Record Client : Type := mkClient {
  store : Store;
  held : list nat
}.

(** What a caller does: call an accessor, or mutate the [i]-th record it
    was handed. *)
Inductive Op : Type :=
| CallGetConfig
| CallGetSessionInfo
| Assign (i : nat) (name : string) (v : PropValue)
| Delete (i : nat) (name : string).

Definition onHeld (c : Client) (i : nat) (f : nat -> Heap -> Heap) : Client :=
  match nth_error (held c) i with
  | Some a =>
      mkClient (mkStore (f a (heap (store c))) (config (store c))
                  (sessionInfo (store c)))
               (held c)
  | None => c
  end.

Definition exec (c : Client) (op : Op) : Client :=
  match op with
  | CallGetConfig =>
      let (a, st) := getConfig (store c) in mkClient st (held c ++ [a])
  | CallGetSessionInfo =>
      let (a, st) := getSessionInfo (store c) in mkClient st (held c ++ [a])
  | Assign i name v => onHeld c i (fun a => assign a name v)
  | Delete i name => onHeld c i (fun a => deleteProp a name)
  end.

Definition execAll (ops : list Op) (c : Client) : Client :=
  fold_left exec ops c.

(** What reading the fields of the object at [a] gives: strings, and for a
    Date its time. *)
Inductive Shown : Type :=
| SStr (s : string)
| SDate (t : Z)
| SOther.

Definition show (h : Heap) (v : PropValue) : Shown :=
  match v with
  | PStr s => SStr s
  | PRef d =>
      match nth_error h d with
      | Some (DateObj t) => SDate t
      | _ => SOther
      end
  end.

Definition view (h : Heap) (a : nat) : list (string * Shown) :=
  match nth_error h a with
  | Some (Plain ps) => map (fun p => (fst p, show h (snd p))) ps
  | _ => []
  end.

(** The caller holds only objects allocated after the three objects of the
    constructors, and these three are as the constructors made them. *)
Definition untouched (name version environment id : string) (nw : Z) (c : Client)
  : Prop :=
  exists extra,
    heap (store c) = heap (construct name version environment id nw) ++ extra
    /\ config (store c) = 0 /\ sessionInfo (store c) = 2
    /\ Forall (fun a => 3 <= a) (held c).

End Objects.

(** ** Concrete buses and listeners used as instances *)

Module Examples.

Import Bus.


(** Listeners that all return at once. *)
Definition quiet (f : nat) (args : list Value) (w : World unit nat)
  : Outcome unit nat unit :=
  Normal tt w.

Definition freshBus : World unit nat := construct defaultMaxListeners false tt.

(** Listener 0, then listener 1, on 'terminal:resize'. *)
Definition resizeBus : World unit nat :=
  onTyped terminal_resize 1 (onTyped terminal_resize 0 freshBus).


(** Listener 7 with [on], then with [once], then listener 8, on 'terminal:key'. *)
Definition keyBus : World unit nat :=
  onTyped terminal_key 8
    (onceTyped terminal_key 7 (onTyped terminal_key 7 freshBus)).

Definition resizeArgs : list Value := [VNum 80; VNum 24].

(** A production environment with the default ceiling. *)
Definition production : Lifecycle.Env :=
  Lifecycle.mkEnv (Some "production") 50 None true true "1A2B3C4D" 0%Z.

(** The process after [new DTraderCrypto(eventBus)], and after [start()]. *)
Definition bootedWorld : Lifecycle.World := Lifecycle.boot production.

Definition startedWorld : Lifecycle.World :=
  match Lifecycle.step 2 Lifecycle.CallStart (Lifecycle.Live bootedWorld) with
  | Lifecycle.Live w => w
  | _ => bootedWorld
  end.

End Examples.

(** ** The rest of the terminal manager and of the entry point *)

Module Surface.

Import Bus Lifecycle Examples.

(** [TerminalManager.isReady] *)
Definition isReady (w : World) : bool :=
  isInitialized (user w) && isInputGrabbed (user w).

(** Marks in the trace: [grabInput(true)], [term.on('key', ...)], and any
    call on the terminal. *)
Definition isInputGrab (a : Action) : bool :=
  match a with GrabInput true => true | _ => false end.

Definition isKeyAttach (a : Action) : bool :=
  match a with OnKey => true | _ => false end.


(** How often one trigger grabs the input and attaches the key handler. *)
Definition grabsIn (sh : Shape) (t : Trigger) : nat :=
  match sh, t with
  | ShIdle, CallStart => 1
  | _, _ => 0
  end.

Definition grabbed (sh : Shape) : nat :=
  match sh with ShIdle => 0 | _ => 1 end.

(** Resizes and keys other than the two exit keys. *)
Definition isQuietTrigger (t : Trigger) : bool :=
  match t with
  | TermResize _ _ => true
  | TermKey name => negb (String.eqb name "CTRL_X" || String.eqb name "CTRL_C")
  | _ => false
  end.

(** The process after a SIGINT that reaches it while it runs. *)
Definition stoppingWorld : World :=
  match step 2 Sigint (Live startedWorld) with
  | Live w => w
  | _ => startedWorld
  end.

(** [null] and [undefined]. *)
Definition isNullish (e : Thrown) : bool :=
  match e with Null | Undefined => true | _ => false end.

(** A JavaScript string as its UTF-16 code units; [text.length] is the
    length of the list. *)
Definition CodeUnit : Type := nat.

Definition space : CodeUnit := 32.

(** [TerminalManager.centerText] *)
Definition centerText (text : list CodeUnit) (width : nat) : list CodeUnit :=
  let padding := Nat.max 0 (width - length text) in
  let leftPad := padding / 2 in
  let rightPad := padding - leftPad in
  repeat space leftPad ++ text ++ repeat space rightPad.











End Surface.

(** ** The masking of log metadata (utils/Logger.ts) *)

Module Masking.

#[local] Set Warnings "-register-all".

(** The values log metadata is made of: plain, acyclic data. *)
Inductive Json : Type :=
| JNull
| JUndefined
| JBool (b : bool)
| JNum (z : Z)
| JStr (s : string)
| JFun (tag : nat)
| JArr (items : list Json)
| JObj (entries : list (string * Json)).

Definition SENSITIVE_FIELDS : list string :=
  ["apiKey"; "secretKey"; "passphrase"; "password"; "token";
   "authorization"; "secret"; "key"; "privateKey"].

Definition MASKED : string := "***MASKED***".

(** [s.includes(sub)] *)
Fixpoint includes (s sub : string) : bool :=
  if String.prefix sub s then true
  else
    match s with
    | EmptyString => false
    | String _ rest => includes rest sub
    end.

Definition isString (v : Json) : bool :=
  match v with JStr _ => true | _ => false end.

(** [typeof v === 'object'] *)
Definition isObjectType (v : Json) : bool :=
  match v with JNull | JArr _ | JObj _ => true | _ => false end.

Section Mask.

(** [String.prototype.toLowerCase] *)
Variable toLowerCase : string -> string.

Definition isSensitive (key : string) : bool :=
  existsb (fun field => includes (toLowerCase key) (toLowerCase field))
          SENSITIVE_FIELDS.

Fixpoint maskSensitiveData (obj : Json) : Json :=
  match obj with
  | JArr items => JArr (map maskSensitiveData items)
  | JObj entries =>
      JObj (map (fun p =>
                   (fst p,
                    if isSensitive (fst p) && isString (snd p) then JStr MASKED
                    else if isObjectType (snd p) then maskSensitiveData (snd p)
                    else snd p))
                entries)
  | _ => obj
  end.

(** A string other than the mask directly under a sensitive key, at any
    depth. *)
Fixpoint exposed (v : Json) : bool :=
  match v with
  | JArr items => existsb exposed items
  | JObj entries =>
      existsb (fun p =>
                 match snd p with
                 | JStr s => isSensitive (fst p) && negb (String.eqb s MASKED)
                 | _ => exposed (snd p)
                 end)
              entries
  | _ => false
  end.

End Mask.

End Masking.

(** ** Facts about the event bus *)

Module BusFacts.

Import Bus.

Section Facts.

Context {U L : Type}.
Variable L_eq_dec : forall x y : L, {x = y} + {x <> y}.
Variable behave : L -> list Value -> World U L -> Outcome U L unit.

Lemma lookup_store_same : forall k (e : Entry L) ev, lookup k (store k e ev) = Some e.
Proof.
  intros k e ev. induction ev as [|[k' e'] rest IH]; simpl.
  - destruct (AppEvent_eq_dec k k); congruence.
  - destruct (AppEvent_eq_dec k k') as [->|Hne]; simpl.
    + destruct (AppEvent_eq_dec k' k'); congruence.
    + destruct (AppEvent_eq_dec k k'); congruence.
Qed.

Lemma lookup_store_other : forall k k' (e : Entry L) ev,
  k <> k' -> lookup k (store k' e ev) = lookup k ev.
Proof.
  intros k k' e ev Hne. induction ev as [|[k2 e2] rest IH]; simpl.
  - destruct (AppEvent_eq_dec k k'); congruence.
  - destruct (AppEvent_eq_dec k' k2) as [->|H2]; simpl.
    + destruct (AppEvent_eq_dec k k2); congruence.
    + destruct (AppEvent_eq_dec k k2); congruence.
Qed.

Lemma lookup_delete_same : forall k (ev : list (AppEvent * Entry L)),
  lookup k (delete k ev) = None.
Proof.
  intros k ev. induction ev as [|[k' e'] rest IH]; simpl; auto.
  destruct (AppEvent_eq_dec k k') as [->|Hne]; simpl; auto.
  destruct (AppEvent_eq_dec k k'); congruence.
Qed.

Lemma lookup_delete_other : forall k k' (ev : list (AppEvent * Entry L)),
  k <> k' -> lookup k (delete k' ev) = lookup k ev.
Proof.
  intros k k' ev Hne. induction ev as [|[k2 e2] rest IH]; simpl; auto.
  destruct (AppEvent_eq_dec k' k2) as [->|H2]; simpl.
  - destruct (AppEvent_eq_dec k k2); congruence.
  - destruct (AppEvent_eq_dec k k2); congruence.
Qed.

Lemma bus_emitNewListener : forall name (w : World U L), bus (emitNewListener name w) = bus w.
Proof.
  intros. unfold emitNewListener, emitPrologue, logListenerAdd, logEvent.
  destruct (onNewListener (bus w)); [destruct (emitWrapped (bus w))|]; reflexivity.
Qed.

Lemma bus_emitRemoveListener : forall name (w : World U L), bus (emitRemoveListener name w) = bus w.
Proof.
  intros. unfold emitRemoveListener, emitPrologue, logListenerRemove, logEvent.
  destruct (onRemoveListener (bus w)); [destruct (emitWrapped (bus w))|]; reflexivity.
Qed.

Lemma bus_emitPrologue : forall name (w : World U L), bus (emitPrologue name w) = bus w.
Proof.
  intros. unfold emitPrologue, logEvent. destruct (emitWrapped (bus w)); reflexivity.
Qed.

Lemma listeners_addListener : forall k r (w : World U L),
  listeners k (addListener k r w) = listeners k w ++ [r].
Proof.
  intros k r w. unfold addListener, listeners.
  rewrite bus_emitNewListener.
  destruct (lookup k (events (bus w))) as [e|] eqn:Hl.
  - match goal with |- context [if ?c then _ else _] => destruct c end;
      simpl; rewrite lookup_store_same; reflexivity.
  - simpl. rewrite lookup_store_same. reflexivity.
Qed.

Lemma listeners_addListener_other : forall k k' r (w : World U L),
  k' <> k -> listeners k' (addListener k r w) = listeners k' w.
Proof.
  intros k k' r w Hne. unfold addListener, listeners.
  rewrite bus_emitNewListener.
  destruct (lookup k (events (bus w))) as [e|] eqn:Hl.
  - match goal with |- context [if ?c then _ else _] => destruct c end;
      simpl; rewrite lookup_store_other by assumption; reflexivity.
  - simpl. rewrite lookup_store_other by assumption. reflexivity.
Qed.

Lemma lastIndex_some : forall (A : Type) (p : A -> bool) l i,
  lastIndex p l = Some i ->
  exists l1 x l2, l = l1 ++ x :: l2 /\ p x = true
    /\ Forall (fun y => p y = false) l2 /\ spliceOne l i = l1 ++ l2.
Proof.
  intros A p l. induction l as [|a rest IH]; intros i H; simpl in H.
  - discriminate.
  - destruct (lastIndex p rest) as [j|] eqn:Hr.
    + inversion H; subst i. destruct (IH j eq_refl) as (l1 & x & l2 & -> & Hp & Hall & Hs).
      exists (a :: l1), x, l2. repeat split; auto.
      unfold spliceOne in *. simpl. f_equal. exact Hs.
    + destruct (p a) eqn:Hpa; [|discriminate]. inversion H; subst i.
      exists [], a, rest. repeat split; auto.
      clear IH H. induction rest as [|b r IHr]; constructor.
      * simpl in Hr. destruct (lastIndex p r); [discriminate|]. destruct (p b); [discriminate|reflexivity].
      * apply IHr. simpl in Hr. destruct (lastIndex p r); [discriminate|reflexivity].
Qed.

Lemma lastIndex_none : forall (A : Type) (p : A -> bool) l,
  lastIndex p l = None <-> Forall (fun y => p y = false) l.
Proof.
  intros A p l. induction l as [|a rest IH]; simpl.
  - split; auto.
  - split.
    + intros H. destruct (lastIndex p rest); [discriminate|].
      destruct (p a) eqn:Hpa; [discriminate|]. constructor; auto. apply IH; reflexivity.
    + intros H. inversion H; subst. apply IH in H3. rewrite H3, H2. reflexivity.
Qed.

Lemma listeners_removeMatching : forall k p (w : World U L) l1 x l2,
  listeners k w = l1 ++ x :: l2 -> p x = true -> Forall (fun y => p y = false) l2 ->
  listeners k (removeMatching k p w) = l1 ++ l2.
Proof.
  intros k p w l1 x l2 Hl Hp Hall. unfold removeMatching, listeners in *.
  destruct (lookup k (events (bus w))) as [e|] eqn:Hlk.
  2:{ destruct l1; discriminate. }
  destruct (lastIndex p (regs e)) as [i|] eqn:Hi.
  2:{ apply lastIndex_none in Hi. rewrite Hl in Hi. apply Forall_app in Hi as [_ Hi].
      inversion Hi; congruence. }
  apply lastIndex_some in Hi as (m1 & y & m2 & Hm & Hy & Hm2 & Hs).
  assert (m1 = l1 /\ m2 = l2) as [-> ->].
  { rewrite Hl in Hm. clear - Hm Hp Hy Hall Hm2.
    revert m1 Hm. induction l1 as [|a l1 IH]; intros [|b m1] Hm; simpl in Hm.
    - inversion Hm; auto.
    - inversion Hm; subst. apply Forall_app in Hall as [_ Hall]. inversion Hall; congruence.
    - inversion Hm; subst. apply Forall_app in Hm2 as [_ Hm2]. inversion Hm2; congruence.
    - inversion Hm; subst. destruct (IH m1 H1) as [-> ->]. auto. }
  rewrite Hs. rewrite bus_emitRemoveListener. simpl.
  destruct (l1 ++ l2) as [|a [|b r]] eqn:Hrs; simpl.
  - rewrite lookup_delete_same. reflexivity.
  - rewrite lookup_store_same. reflexivity.
  - rewrite lookup_store_same. reflexivity.
Qed.

Lemma removeMatching_absent : forall k p (w : World U L),
  Forall (fun y => p y = false) (listeners k w) -> removeMatching k p w = w.
Proof.
  intros k p w H. unfold removeMatching, listeners in *.
  destruct (lookup k (events (bus w))) as [e|]; auto.
  apply lastIndex_none in H. rewrite H. reflexivity.
Qed.




Lemma wellFormed_removeMatching : forall k p (w : World U L),
  wellFormed w -> wellFormed (removeMatching k p w).
Proof.
  intros k p w Hwf. unfold removeMatching.
  destruct (lookup k (events (bus w))) as [e|] eqn:Hl; auto.
  destruct (lastIndex p (regs e)) as [i|] eqn:Hi; auto.
  intros k' e'. rewrite bus_emitRemoveListener. simpl.
  destruct (spliceOne (regs e) i) as [|a [|b r]] eqn:Hs.
  - destruct (AppEvent_eq_dec k' k) as [->|Hne].
    + rewrite lookup_delete_same. discriminate.
    + rewrite lookup_delete_other by assumption. apply Hwf.
  - destruct (AppEvent_eq_dec k' k) as [->|Hne].
    + rewrite lookup_store_same. intros H; inversion H; simpl. discriminate.
    + rewrite lookup_store_other by assumption. apply Hwf.
  - destruct (AppEvent_eq_dec k' k) as [->|Hne].
    + rewrite lookup_store_same. intros H; inversion H; simpl. discriminate.
    + rewrite lookup_store_other by assumption. apply Hwf.
Qed.


(** *** The loop of [emit] *)

Lemma callAll_wellBehaved : forall k args rs (w : World U L),
  Forall (wellBehaved behave) rs ->
  exists w', callAll behave k rs args w = (map (fun r => mkCall r args) rs, Normal tt w').
Proof.
  intros k args rs. induction rs as [|r rest IH]; intros w Hall; simpl.
  - eauto.
  - inversion Hall as [|? ? [Hplain Hret] Hrest]; subst.
    unfold invoke. rewrite Hplain.
    destruct (Hret args w) as [w1 Hw1]. rewrite Hw1.
    destruct (IH w1 Hrest) as [w2 Hw2]. rewrite Hw2. simpl. eauto.
Qed.


Lemma invoke_calls_bound : forall (q : Reg L -> bool) k r args (w : World U L),
  length (filter (fun c => q (callee c)) (fst (invoke behave k r args w)))
  <= length (filter q [r]).
Proof.
  intros q k r args w. unfold invoke.
  destruct (wrapper r) as [id|]; [destruct (isFired id w)|]; simpl;
    destruct (q r); simpl; lia.
Qed.

Lemma callAll_calls_bound : forall (q : Reg L -> bool) k args rs (w : World U L),
  length (filter (fun c => q (callee c)) (fst (callAll behave k rs args w)))
  <= length (filter q rs).
Proof.
  intros q k args rs. induction rs as [|r rest IH]; intros w; simpl.
  - lia.
  - pose proof (invoke_calls_bound q k r args w) as Hi. simpl in Hi.
    destruct (invoke behave k r args w) as [cs o]. simpl in Hi.
    assert (Hr : length (filter q (r :: rest))
                 = length (filter q [r]) + length (filter q rest)).
    { simpl. destruct (q r); simpl; lia. }
    simpl in Hr. 
    destruct o as [a w'|e w'|c w'|]; simpl; try (destruct (q r); simpl in *; lia).
    specialize (IH w'). destruct (callAll behave k rest args w') as [cs' o'].
    simpl in *. rewrite filter_app, length_app. destruct (q r); simpl in *; lia.
Qed.

Lemma emitTyped_calls_bound : forall (q : Reg L -> bool) k args (w : World U L),
  length (filter (fun c => q (callee c)) (fst (emitTyped behave k args w)))
  <= length (filter q (listeners k w)).
Proof.
  intros q k args w. unfold emitTyped, emit, originalEmit, listeners.
  rewrite bus_emitPrologue.
  destruct (lookup k (events (bus w))) as [e|]; simpl; [|lia].
  pose proof (callAll_calls_bound q k args (regs e) (emitPrologue (eventName k) w)) as H.
  destruct (callAll behave k (regs e) args (emitPrologue (eventName k) w)) as [cs o].
  simpl in *. exact H.
Qed.


(** *** [once] wrappers *)

Lemma fired_removeMatching : forall k p (w : World U L),
  fired (bus (removeMatching k p w)) = fired (bus w).
Proof.
  intros k p w. unfold removeMatching.
  destruct (lookup k (events (bus w))) as [e|]; auto.
  destruct (lastIndex p (regs e)); auto.
  rewrite bus_emitRemoveListener. reflexivity.
Qed.

Section Once.

Variable id : nat.

(** No listener resets the mark of wrapper [id] (it is a variable private
    to the wrapper's closure). *)
Hypothesis mark_kept : forall f args (w : World U L),
  isFired id w = true -> firedIn id (behave f args w).

Lemma invoke_once : forall k r args (w : World U L),
  (isFired id w = true ->
     callsVia id (fst (invoke behave k r args w)) = 0
     /\ firedIn id (snd (invoke behave k r args w)))
  /\ (isFired id w = false ->
     callsVia id (fst (invoke behave k r args w)) <= 1
     /\ (callsVia id (fst (invoke behave k r args w)) = 1 ->
         firedIn id (snd (invoke behave k r args w)))).
Proof.
  intros k r args w. unfold invoke, callsVia, viaWrapper, matchesWrapper.
  destruct (wrapper r) as [id'|] eqn:Hw.
  - destruct (isFired id' w) eqn:Hf'; simpl.
    + split; intros Hf; [split; [reflexivity|exact Hf] | split; [lia | discriminate]].
    + rewrite Hw. set (w2 := setBus _ _).
      assert (Hw2 : forall j, isFired j w2 = Nat.eqb j id' || isFired j w).
      { intros j. unfold w2, isFired. simpl. rewrite fired_removeMatching. reflexivity. }
      destruct (Nat.eqb id id') eqn:He; simpl.
      * apply Nat.eqb_eq in He. subst id'. split; intros Hf; [congruence|].
        split; [lia|]. intros _. apply mark_kept. rewrite Hw2, Nat.eqb_refl. reflexivity.
      * split; intros Hf; split; try lia; try discriminate.
        apply mark_kept. rewrite Hw2, Hf. apply orb_true_r.
  - simpl. rewrite Hw. simpl. split; intros Hf; split; try lia; try discriminate.
    apply mark_kept. exact Hf.
Qed.

Lemma callAll_once : forall k args rs (w : World U L),
  (isFired id w = true ->
     callsVia id (fst (callAll behave k rs args w)) = 0
     /\ firedIn id (snd (callAll behave k rs args w)))
  /\ (isFired id w = false ->
     callsVia id (fst (callAll behave k rs args w)) <= 1
     /\ (callsVia id (fst (callAll behave k rs args w)) = 1 ->
         firedIn id (snd (callAll behave k rs args w)))).
Proof.
  intros k args rs. induction rs as [|r rest IH]; intros w.
  - simpl. unfold callsVia, firedIn. simpl. split; intros Hf; split; auto; try lia; discriminate.
  - simpl. pose proof (invoke_once k r args w) as [H1 H0].
    destruct (invoke behave k r args w) as [cs o]. simpl in H1, H0.
    destruct o as [a w'|e w'|c w'|]; simpl; try (split; assumption).
    pose proof (IH w') as [I1 I0].
    destruct (callAll behave k rest args w') as [cs' o']. simpl in *.
    unfold callsVia in *. rewrite filter_app, length_app.
    unfold firedIn in H1, H0. simpl in H1, H0.
    split; intros Hf.
    + destruct (H1 Hf) as [Hc Hw']. destruct (I1 Hw') as [Hc' Ho']. split; [lia|exact Ho'].
    + destruct (H0 Hf) as [Hc Hw'].
      destruct (isFired id w') eqn:Hfw'.
      * destruct (I1 eq_refl) as [Hc' Ho']. split; [lia|]. intros _. exact Ho'.
      * destruct (I0 eq_refl) as [Hc' Ho'].
        assert (length (filter (viaWrapper id) cs) = 0).
        { destruct (length (filter (viaWrapper id) cs)) as [|[|n]]; lia. }
        split; [lia|]. intros Ht. apply Ho'. lia.
Qed.

Lemma emitTyped_once : forall k args (w : World U L),
  (isFired id w = true ->
     callsVia id (fst (emitTyped behave k args w)) = 0
     /\ firedIn id (snd (emitTyped behave k args w)))
  /\ (isFired id w = false ->
     callsVia id (fst (emitTyped behave k args w)) <= 1
     /\ (callsVia id (fst (emitTyped behave k args w)) = 1 ->
         firedIn id (snd (emitTyped behave k args w)))).
Proof.
  intros k args w. unfold emitTyped, emit, originalEmit.
  rewrite bus_emitPrologue.
  assert (Hp : isFired id (emitPrologue (eventName k) w) = isFired id w).
  { unfold isFired. rewrite bus_emitPrologue. reflexivity. }
  destruct (lookup k (events (bus w))) as [e|].
  2:{ simpl. unfold callsVia, firedIn. simpl. rewrite Hp.
      split; intros Hf; split; auto; try lia; discriminate. }
  pose proof (callAll_once k args (regs e) (emitPrologue (eventName k) w)) as H.
  rewrite Hp in H.
  destruct (callAll behave k (regs e) args (emitPrologue (eventName k) w)) as [cs o].
  simpl in *.
  assert (Ho : firedIn id o ->
          firedIn id (let o1 := bind o (fun _ w' => Normal true w') in
                      match o1 with
                      | Throws err w' =>
                          bind (logError (eventName k) err w')
                               (fun _ w'' => Normal false w'')
                      | _ => o1
                      end)).
  { destruct o as [a w'|err w'|c w'|]; simpl; auto.
    unfold firedIn, logError. destruct err; simpl; auto. }
  simpl in Ho.
  destruct H as [H1 H0]. split; intros Hf.
  - destruct (H1 Hf). split; auto.
  - destruct (H0 Hf). split; auto.
Qed.

Lemma publishMany_once : forall k argss (w : World U L),
  callsVia id (publishMany behave k argss w) <= 1
  /\ (isFired id w = true -> callsVia id (publishMany behave k argss w) = 0).
Proof.
  intros k argss. induction argss as [|args rest IH]; intros w; simpl.
  - unfold callsVia. simpl. split; auto.
  - pose proof (emitTyped_once k args w) as [H1 H0].
    destruct (emitTyped behave k args w) as [cs o]. simpl in H1, H0.
    unfold firedIn in H1, H0.
    destruct o as [a w'|err w'|c w'|]; simpl in *.
    + destruct (IH w') as [Ile Ifired]. unfold callsVia in *.
      rewrite filter_app, length_app. split.
      * destruct (isFired id w) eqn:Hf.
        -- destruct (H1 eq_refl) as [Hc Hw']. rewrite (Ifired Hw'). lia.
        -- destruct (H0 eq_refl) as [Hc Hw'].
           destruct (length (filter (viaWrapper id) cs)) as [|[|n]] eqn:Hl; try lia.
           rewrite (Ifired (Hw' eq_refl)). lia.
      * intros Hf. destruct (H1 Hf) as [Hc Hw']. rewrite (Ifired Hw'). lia.
    + split; [destruct (isFired id w); [destruct (H1 eq_refl); lia | destruct (H0 eq_refl); lia]|].
      intros Hf. apply H1; exact Hf.
    + split; [destruct (isFired id w); [destruct (H1 eq_refl); lia | destruct (H0 eq_refl); lia]|].
      intros Hf. apply H1; exact Hf.
    + split; [destruct (isFired id w); [destruct (H1 eq_refl); lia | destruct (H0 eq_refl); lia]|].
      intros Hf. apply H1; exact Hf.
Qed.

End Once.


(** *** The claims about the bus *)



(** C7.  [offTyped k f] removes the last registration of [f] for [k] and
    nothing else, and changes nothing at all when [f] has no registration
    for [k]; a publish of [k] after it calls [f] at most as many times as
    [f] was registered before, less one; a registration made by
    [onceTyped] is a wrapper with a new identity, and across any sequence
    of publishes a wrapper is called at most once (given that no listener
    resets the wrapper's private mark). *)
Theorem offTyped_and_onceTyped : forall k f (w : World U L),
  ((exists r, In r (listeners k w) /\ target r = f) ->
     exists l1 r l2,
       listeners k w = l1 ++ r :: l2 /\ target r = f
       /\ Forall (fun x => target x <> f) l2
       /\ listeners k (offTyped L_eq_dec k f w) = l1 ++ l2)
  /\ (Forall (fun x => target x <> f) (listeners k w) ->
        offTyped L_eq_dec k f w = w)
  /\ (forall args,
        callsTo L_eq_dec f (fst (emitTyped behave k args (offTyped L_eq_dec k f w)))
        <= registrationsOf L_eq_dec f (listeners k w) - 1)
  /\ listeners k (onceTyped k f w)
     = listeners k w ++ [mkReg f (Some (nextWrapper (bus w)))]
  /\ (forall id,
        (forall g args (w1 : World U L),
           isFired id w1 = true -> firedIn id (behave g args w1)) ->
        forall argss (w1 : World U L),
          callsVia id (publishMany behave k argss w1) <= 1).
Proof.
  intros k f w.
  assert (Hdec : forall l : list (Reg L),
            Forall (fun x => matchesListener L_eq_dec f x = false) l
            <-> Forall (fun x => target x <> f) l).
  { intros l. split; intros H; induction H; constructor; auto;
      unfold matchesListener in *; destruct (L_eq_dec (target x) f); congruence. }
  assert (Hsplit : (exists r, In r (listeners k w) /\ target r = f) ->
     exists l1 r l2,
       listeners k w = l1 ++ r :: l2 /\ target r = f
       /\ Forall (fun x => target x <> f) l2
       /\ listeners k (offTyped L_eq_dec k f w) = l1 ++ l2).
  { intros (r & Hin & Hr).
    destruct (lastIndex (matchesListener L_eq_dec f) (listeners k w)) as [i|] eqn:Hi.
    - apply lastIndex_some in Hi as (l1 & x & l2 & Hl & Hx & Hl2 & _).
      exists l1, x, l2. repeat split; auto.
      + unfold matchesListener in Hx. destruct (L_eq_dec (target x) f); congruence.
      + apply Hdec; exact Hl2.
      + unfold offTyped, off. eapply listeners_removeMatching; eauto.
    - apply lastIndex_none in Hi. rewrite Forall_forall in Hi. specialize (Hi r Hin).
      unfold matchesListener in Hi. destruct (L_eq_dec (target r) f); congruence. }
  assert (Habsent : Forall (fun x => target x <> f) (listeners k w) ->
                    offTyped L_eq_dec k f w = w).
  { intros H. unfold offTyped, off. apply removeMatching_absent. apply Hdec; exact H. }
  split; [exact Hsplit|]. split; [exact Habsent|]. split; [|split].
  - intros args. unfold callsTo, toListener, registrationsOf.
    etransitivity; [apply emitTyped_calls_bound|].
    destruct (lastIndex (matchesListener L_eq_dec f) (listeners k w)) as [i|] eqn:Hi.
    + pose proof Hi as Hi'.
      apply lastIndex_some in Hi' as (l1 & x & l2 & Hl & Hx & Hl2 & _).
      unfold offTyped, off.
      rewrite (listeners_removeMatching k _ w l1 x l2 Hl Hx Hl2).
      rewrite Hl. rewrite !filter_app, !length_app. simpl. rewrite Hx. simpl. lia.
    + apply lastIndex_none in Hi. rewrite Habsent by (apply Hdec; exact Hi).
      assert (Hnil : filter (matchesListener L_eq_dec f) (listeners k w) = []).
      { clear - Hi. induction Hi as [|x l Hx _ IH]; simpl; [reflexivity|].
        rewrite Hx. exact IH. }
      rewrite Hnil. simpl. lia.
  - unfold onceTyped, once.
    rewrite listeners_addListener. reflexivity.
  - intros id Hkept argss w1.
    apply (publishMany_once id Hkept k argss w1).
Qed.

(** C8.  [onTyped] never rejects a registration: the listener is appended
    and counted whatever the ceiling is, the call only writes log records
    and at most one process warning, and the warning is written when the
    new count exceeds a positive ceiling that has not been reported for
    this array yet.  On a bus built with the default ceiling of 50, the
    first 50 registrations for a kind give no warning and the 51st is
    accepted with exactly one. *)
Theorem onTyped_over_ceiling_only_warns : forall k f (w : World U L),
  listeners k (onTyped k f w) = listeners k w ++ [mkReg f None]
  /\ listenerCount k (onTyped k f w) = S (listenerCount k w)
  /\ (exists logs extra,
        trace (onTyped k f w) = trace w ++ logs ++ extra
        /\ forallb isLog logs = true
        /\ (extra = []
            \/ extra = [ProcessWarning (eventName k) (S (listenerCount k w))]))
  /\ (0 < maxListeners (bus w) ->
      maxListeners (bus w) < S (listenerCount k w) ->
      wasWarned k w = false ->
      In (ProcessWarning (eventName k) (S (listenerCount k w)))
         (trace (onTyped k f w)))
  /\ (forall lg (u : U),
        let w50 := Nat.iter 50 (onTyped k f) (construct defaultMaxListeners lg u) in
        listenerCount k w50 = 50
        /\ existsb isProcessWarning (trace w50) = false
        /\ listenerCount k (onTyped k f w50) = 51
        /\ filter isProcessWarning (trace (onTyped k f w50))
           = [ProcessWarning (eventName k) 51]).
Proof.
  intros k f w.
  assert (Hl : listeners k (onTyped k f w) = listeners k w ++ [mkReg f None]).
  { unfold onTyped, on. apply listeners_addListener. }
  split; [exact Hl|]. split; [|split; [|split]].
  - unfold listenerCount. rewrite Hl, length_app. simpl. lia.
  - unfold onTyped, on, addListener, listenerCount, listeners.
    assert (Hn : exists logs,
               trace (emitNewListener (eventName k) w) = trace w ++ logs
               /\ forallb isLog logs = true).
    { unfold emitNewListener, emitPrologue, logListenerAdd, logEvent, push, snoc.
      destruct (onNewListener (bus w)); [destruct (emitWrapped (bus w))|]; simpl.
      - eexists [_; _]. rewrite <- app_assoc. split; reflexivity.
      - eexists [_]. split; reflexivity.
      - exists []. rewrite app_nil_r. split; reflexivity. }
    destruct Hn as (logs & Ht & Hlogs).
    rewrite bus_emitNewListener.
    destruct (lookup k (events (bus w))) as [e|].
    + match goal with |- context [if ?c then _ else _] => destruct c end; simpl.
      * exists logs, [ProcessWarning (eventName k) (S (length (regs e)))].
        unfold snoc. rewrite Ht, length_app, <- app_assoc. simpl.
        rewrite Nat.add_1_r. auto.
      * exists logs, []. rewrite Ht, app_nil_r. auto.
    + simpl. exists logs, []. rewrite Ht, app_nil_r. auto.
  - intros Hpos Hover Hnw.
    unfold onTyped, on, addListener, listenerCount, listeners, wasWarned in *.
    rewrite bus_emitNewListener.
    destruct (lookup k (events (bus w))) as [e|].
    + rewrite length_app. simpl. rewrite Nat.add_1_r.
      rewrite Hnw.
      apply Nat.ltb_lt in Hpos. apply Nat.ltb_lt in Hover.
      rewrite Hpos, Hover. simpl. unfold snoc.
      apply in_or_app. right. left. reflexivity.
    + simpl in Hover. lia.
  - intros lg u. destruct k, lg; vm_compute; auto.
Qed.

(** C10.  A newly built bus already has the three bookkeeping listeners:
    [getListenersInfo] reports 'error', 'newListener' and 'removeListener'
    with one listener each, and none of these keys is the name of a kind
    of [AppEvents]. *)
Theorem getListenersInfo_of_new_bus : forall m lg (u : U),
  fst (getListenersInfo (construct (L:=L) m lg u))
  = [("error"%string, 1); ("newListener"%string, 1); ("removeListener"%string, 1)]
  /\ fst (getListenersInfo (construct (L:=L) m lg u)) <> []
  /\ forall k : AppEvent,
       ~ In (eventName k)
            (map fst (fst (getListenersInfo (construct (L:=L) m lg u)))).
Proof.
  intros m lg u.
  assert (H : fst (getListenersInfo (construct (L:=L) m lg u))
              = [("error"%string, 1); ("newListener"%string, 1);
                 ("removeListener"%string, 1)]).
  { destruct lg; reflexivity. }
  rewrite H. split; [reflexivity|]. split; [discriminate|].
  intros k. simpl. destruct k; simpl; intuition discriminate.
Qed.

End Facts.

(** *** Instances *)

Import Examples.






(** Besides: a listener that throws [null] makes the catch clause itself
    throw, and that exception does reach the caller. *)
Lemma emitTyped_rethrows_on_null :
  exists e w',
    snd (emitTyped (fun (f : nat) (_ : list Value) (w : World unit nat) =>
                      Throws Null w)
           terminal_resize resizeArgs resizeBus)
    = Throws e w'.
Proof. eexists _, _. vm_compute. reflexivity. Qed.

(** C7: on a bus where listener 7 is registered with [on] and with [once]. *)
Lemma offTyped_and_onceTyped_witness :
  (exists l1 r l2,
     listeners terminal_key keyBus = l1 ++ r :: l2 /\ target r = 7
     /\ Forall (fun x => target x <> 7) l2
     /\ listeners terminal_key (offTyped Nat.eq_dec terminal_key 7 keyBus) = l1 ++ l2)
  /\ offTyped Nat.eq_dec terminal_key 9 keyBus = keyBus
  /\ forall argss, callsVia 0 (publishMany quiet terminal_key argss keyBus) <= 1.
Proof.
  pose proof (offTyped_and_onceTyped Nat.eq_dec quiet terminal_key 7 keyBus)
    as (H1 & _ & _ & _ & H5).
  pose proof (offTyped_and_onceTyped Nat.eq_dec quiet terminal_key 9 keyBus)
    as (_ & H2 & _).
  split; [|split].
  - apply H1. exists (mkReg 7 None). split; [left; reflexivity|reflexivity].
  - apply H2. repeat constructor; simpl; discriminate.
  - intros argss. apply (H5 0).
    intros g args w1 Hf. exact Hf.
Defined.

End BusFacts.

(** ** Facts about the lifecycle *)

Module LifecycleFacts.

Import Bus Lifecycle.

Ltac crunch :=
  cbv -[snoc isDevelopment String.eqb hasShape];
  repeat match goal with
         | |- context [if ?b then _ else _] => destruct b eqn:?
         end.

Ltac shape_with m l :=
  split; [reflexivity | exists m, l; repeat split; solve [reflexivity | discriminate]].

Lemma react_follows_table : forall sh t n w,
  hasShape sh w ->
  match next sh t, react (2 + n) t w with
  | Some sh', Normal _ w' => hasShape sh' w'
  | None, Exits c _ => c = 0%Z
  | _, _ => False
  end.
Proof.
  intros sh t n [b tr [r st c g i [co un gr mo] se tm]] [Hg (mx & lg & H)].
  simpl in Hg. subst gr.
  destruct sh; simpl in H; destruct H as (Hb & Hr & Hi & Hgr & Htm); subst.
  - (* idle *)
    destruct mx as [|[|mx]]; destruct lg.
    + destruct t; crunch; try reflexivity.
      all: shape_with 0 true.
    + destruct t; crunch; try reflexivity; shape_with 0 false.
    + destruct t; crunch; try reflexivity; shape_with 1 true.
    + destruct t; crunch; try reflexivity; shape_with 1 false.
    + destruct t; crunch; try reflexivity; shape_with (S (S mx)) true.
    + destruct t; crunch; try reflexivity; shape_with (S (S mx)) false.
  - (* running *)
    destruct mx as [|[|mx]]; destruct lg.
    + destruct t; crunch; try reflexivity; shape_with 0 true.
    + destruct t; crunch; try reflexivity; shape_with 0 false.
    + destruct t; crunch; try reflexivity; shape_with 1 true.
    + destruct t; crunch; try reflexivity; shape_with 1 false.
    + destruct t; crunch; try reflexivity; shape_with (S (S mx)) true.
    + destruct t; crunch; try reflexivity; shape_with (S (S mx)) false.
  - (* stopping *)
    destruct tm as [|d tm]; [congruence|].
    destruct mx as [|[|mx]]; destruct lg.
    + destruct t; crunch; try reflexivity; shape_with 0 true.
    + destruct t; crunch; try reflexivity; shape_with 0 false.
    + destruct t; crunch; try reflexivity; shape_with 1 true.
    + destruct t; crunch; try reflexivity; shape_with 1 false.
    + destruct t; crunch; try reflexivity; shape_with (S (S mx)) true.
    + destruct t; crunch; try reflexivity; shape_with (S (S mx)) false.
Qed.

Lemma constructed_is_idle : forall mx lg p,
  grabInput (tconfig p) = true -> isRunning p = false -> isInitialized p = false ->
  isInputGrabbed p = false -> timers p = [] ->
  hasShape ShIdle (DTraderCrypto.construct (Bus.construct mx lg p)).
Proof.
  intros mx lg [r st c g i [co un gr mo] se tm] Hg Hr Hi Hgr Htm.
  simpl in *. subst.
  destruct mx as [|[|mx]]; destruct lg.
  - cbv -[snoc hasShape]; split; [reflexivity | exists 0, true; cbv -[snoc]; repeat split].
  - cbv -[snoc hasShape]; split; [reflexivity | exists 0, false; cbv -[snoc]; repeat split].
  - cbv -[snoc hasShape]; split; [reflexivity | exists 1, true; cbv -[snoc]; repeat split].
  - cbv -[snoc hasShape]; split; [reflexivity | exists 1, false; cbv -[snoc]; repeat split].
  - cbv -[snoc hasShape]; split; [reflexivity | exists (S (S mx)), true; cbv -[snoc]; repeat split].
  - cbv -[snoc hasShape]; split; [reflexivity | exists (S (S mx)), false; cbv -[snoc]; repeat split].
Qed.

Lemma boot_is_idle : forall env, hasShape ShIdle (boot env).
Proof.
  intros env. unfold boot. apply constructed_is_idle; reflexivity.
Qed.

Lemma phase_of_shape : forall sh w, hasShape sh w -> phase (Live w) = phaseOf sh.
Proof.
  intros sh w [_ (mx & lg & H)]. unfold phase.
  destruct sh; destruct H as (_ & Hr & _ & _ & Ht); rewrite Hr.
  - rewrite Ht. reflexivity.
  - rewrite Ht. reflexivity.
  - destruct (timers (user w)); [congruence|reflexivity].
Qed.

Lemma shape_of_phase : forall sh w,
  hasShape sh w -> forall sh', phaseOf sh' = phase (Live w) -> sh' = sh.
Proof.
  intros sh w H sh' Hp. rewrite (phase_of_shape sh w H) in Hp.
  destruct sh, sh'; simpl in Hp; congruence.
Qed.

(** Every reachable state is a live process in one of the three shapes or
    a process that has exited with status 0. *)
Lemma reachable_live_or_exit0 : forall s,
  reachable s ->
  match s with
  | Live w => exists sh, hasShape sh w
  | Dead c _ => c = 0%Z
  | _ => False
  end.
Proof.
  intros s H. induction H as [env|s t n H IH].
  - exists ShIdle. apply boot_is_idle.
  - destruct s as [w|c w|e w|]; [|exact IH|exact IH|exact IH].
    cbv beta iota in IH. destruct IH as [sh Hsh].
    pose proof (react_follows_table sh t n w Hsh) as Ht.
    change (step (2 + n) t (Live w)) with (settle (react (2 + n) t w)).
    unfold settle.
    destruct (next sh t) as [sh'|];
      destruct (react (2 + n) t w) as [a w'|e w'|c w'|]; try contradiction.
    + exists sh'. exact Ht.
    + exact Ht.
Qed.

Ltac eval_react :=
  match goal with
  | |- context [react ?f ?t ?w] =>
      let o := fresh "o" in
      let E := fresh "E" in
      remember (react f t w) as o eqn:E;
      cbv -[snoc isDevelopment String.eqb] in E;
      repeat match type of E with
             | context [if ?b then _ else _] => destruct b eqn:?
             end;
      subst o
  end.

Ltac delta_tac :=
  first [ exact (eq_sym (app_nil_r _))
        | unfold snoc; rewrite <- ?app_assoc; reflexivity ].

Ltac finish_delta :=
  cbv beta iota delta [trace bus user];
  unfold orb;
  repeat match goal with
         | H : String.eqb _ _ = _ |- _ => rewrite H
         | H : isDevelopment _ = _ |- _ => rewrite H
         | H : (if _ then _ else _) = _ |- _ => rewrite H
         end;
  eexists; split; [delta_tac|];
  repeat split; try reflexivity;
  try (intros; discriminate); try (intros; congruence);
  try (intros _; eexists _, _, _, _; reflexivity).

(** What one trigger adds to the trace, by shape: how often the input is
    released and the bus reset, how many exit callbacks are scheduled; a
    fatal fault starts with its error record and the error screen; a
    stopping process changes neither the bus nor its fields until the timer
    fires. *)
Lemma react_delta : forall sh t n w,
  hasShape sh w ->
  match react (2 + n) t w with
  | Normal _ w' | Exits _ w' =>
      exists delta,
        trace w' = trace w ++ delta
        /\ count isInputRelease delta = shutdownsIn sh t
        /\ count isBusReset delta = shutdownsIn sh t
        /\ count isExitScheduling delta = schedulingsIn sh t
        /\ (isFatalFault t = true ->
            exists m txt detail rest,
              delta = Log "app" LError m :: Render (ScrError txt detail) :: rest)
        /\ (sh = ShStopping -> t <> TimerFires -> bus w' = bus w /\ user w' = user w)
  | _ => True
  end.
Proof.
  intros sh t n [b tr [r st c g i [co un gr mo] se tm]] [Hg (mx & lg & H)].
  simpl in Hg. subst gr.
  destruct sh; simpl in H; destruct H as (Hb & Hr & Hi & Hgr & Htm); subst.
  - destruct mx as [|[|mx]]; destruct lg; destruct t;
      unfold shutdownsIn, schedulingsIn, isExitTrigger, isFatalFault;
      eval_react; finish_delta.
  - destruct mx as [|[|mx]]; destruct lg; destruct t;
      unfold shutdownsIn, schedulingsIn, isExitTrigger, isFatalFault;
      eval_react; finish_delta.
  - destruct tm as [|d tm]; [congruence|].
    destruct mx as [|[|mx]]; destruct lg; destruct t;
      unfold shutdownsIn, schedulingsIn, isExitTrigger, isFatalFault;
      eval_react; finish_delta.
Qed.

Lemma count_app : forall p l d, count p (l ++ d) = count p l + count p d.
Proof. intros. unfold count. rewrite filter_app, length_app. reflexivity. Qed.

Lemma step_live : forall n t w, step n t (Live w) = settle (react n t w).
Proof. reflexivity. Qed.




Lemma boot_trace_clean : forall env,
  count isInputRelease (trace (boot env)) = 0
  /\ count isBusReset (trace (boot env)) = 0.
Proof.
  intros [ne mx ver col uni sid nw]. unfold boot.
  generalize (match NODE_ENV (mkEnv ne mx ver col uni sid nw) with
              | Some e => isDevelopment e | None => false end).
  intros lg. cbv [EVENT_BUS_MAX_LISTENERS].
  destruct mx as [|[|mx]]; destruct lg; vm_compute; auto.
Qed.

Lemma shutdownsIn_next : forall sh t sh',
  next sh t = Some sh' -> released sh + shutdownsIn sh t = released sh'.
Proof.
  intros sh t sh' H. destruct sh; simpl in *.
  - destruct t; inversion H; reflexivity.
  - destruct (isExitTrigger t || isFatalFault t); inversion H; reflexivity.
  - destruct t; inversion H; reflexivity.
Qed.

Lemma reachable_trace : forall s,
  reachable s ->
  match s with
  | Live w =>
      exists sh, hasShape sh w
        /\ count isInputRelease (trace w) = released sh
        /\ count isBusReset (trace w) = released sh
  | Dead c w =>
      c = 0%Z /\ count isInputRelease (trace w) <= 1 /\ count isBusReset (trace w) <= 1
  | _ => False
  end.
Proof.
  intros s H. induction H as [env|s t n H IH].
  - exists ShIdle. split; [apply boot_is_idle|]. apply boot_trace_clean.
  - destruct s as [w|c w|e w|]; [|exact IH|exact IH|exact IH].
    cbv beta iota in IH. destruct IH as (sh & Hsh & Hrel & Hres).
    pose proof (react_follows_table sh t n w Hsh) as Ht.
    pose proof (react_delta sh t n w Hsh) as Hd.
    rewrite step_live. unfold settle.
    destruct (next sh t) as [sh'|] eqn:Hn;
      destruct (react (2 + n) t w) as [a w'|e w'|c w'|]; try contradiction.
    + destruct Hd as (delta & Htr & Hc1 & Hc2 & _).
      exists sh'. split; [exact Ht|].
      rewrite Htr, !count_app, Hrel, Hres, Hc1, Hc2.
      rewrite (shutdownsIn_next sh t sh' Hn). auto.
    + destruct Hd as (delta & Htr & Hc1 & Hc2 & _).
      split; [exact Ht|].
      rewrite Htr, !count_app, Hrel, Hres, Hc1, Hc2.
      destruct sh; simpl in *; try lia.
      destruct (isExitTrigger t || isFatalFault t); discriminate.
Qed.

Lemma reachable_shape : forall w,
  reachable (Live w) -> exists sh, hasShape sh w /\ phase (Live w) = phaseOf sh.
Proof.
  intros w H. destruct (reachable_live_or_exit0 _ H) as [sh Hsh].
  exists sh. split; [exact Hsh|]. apply phase_of_shape; exact Hsh.
Qed.

Lemma step_by_table : forall w sh t n,
  hasShape sh w ->
  match next sh t with
  | Some sh' => exists w', step (2 + n) t (Live w) = Live w' /\ hasShape sh' w'
  | None => exists w', step (2 + n) t (Live w) = Dead 0 w'
  end.
Proof.
  intros w sh t n Hsh. pose proof (react_follows_table sh t n w Hsh) as Ht.
  rewrite step_live. unfold settle.
  destruct (next sh t) as [sh'|];
    destruct (react (2 + n) t w) as [a w'|e w'|c w'|]; try contradiction.
  - exists w'. split; [reflexivity|exact Ht].
  - subst c. exists w'. reflexivity.
Qed.


(** C4 (as the code has it).  Between two triggers a reachable process is
    in one of three shapes, and a trigger moves it as the table [next]
    says.  In particular the phase goes from idle to running only by
    [start()], from running to stopping only by an exit trigger or a fatal
    fault; and an idle process that receives SIGINT or SIGTERM exits at
    once with status 0 (the guard of [TerminalManager.gracefulShutdown] on
    a terminal that was never initialised): this is the only way from idle
    to stopped. *)
Theorem transitions_follow_code_table : forall s t n,
  reachable s ->
  (forall w, s = Live w ->
     exists sh, hasShape sh w /\ phase s = phaseOf sh
       /\ phase (step (2 + n) t s)
          = match next sh t with Some sh' => phaseOf sh' | None => Stopped end)
  /\ (phase s = Idle -> phase (step (2 + n) t s) = Running -> t = CallStart)
  /\ (phase s = Running -> phase (step (2 + n) t s) = Stopping ->
      isExitTrigger t || isFatalFault t = true)
  /\ (phase s = Idle -> phase (step (2 + n) t s) = Stopped ->
      t = Sigint \/ t = Sigterm)
  /\ (phase s = Idle -> t = Sigint \/ t = Sigterm ->
      exists w', step (2 + n) t s = Dead 0 w').
Proof.
  intros s t n Hreach.
  assert (Htable : forall w, s = Live w ->
     exists sh, hasShape sh w /\ phase s = phaseOf sh
       /\ phase (step (2 + n) t s)
          = match next sh t with Some sh' => phaseOf sh' | None => Stopped end).
  { intros w ->. destruct (reachable_shape w Hreach) as (sh & Hsh & Hp).
    exists sh. split; [exact Hsh|]. split; [exact Hp|].
    pose proof (step_by_table w sh t n Hsh) as H.
    destruct (next sh t) as [sh'|].
    - destruct H as (w' & -> & Hsh'). apply phase_of_shape; exact Hsh'.
    - destruct H as (w' & ->). reflexivity. }
  split; [exact Htable|].
  destruct s as [w|c w|e w|];
    try (repeat split; intros; discriminate).
  destruct (Htable w eq_refl) as (sh & Hsh & Hp & Hstep).
  rewrite Hp, Hstep. split; [|split; [|split]].
  - intros Hi Hr. destruct sh; try discriminate.
    destruct t; simpl in Hr; try discriminate. reflexivity.
  - intros Hi Hr. destruct sh; try discriminate. simpl in Hr.
    destruct (isExitTrigger t || isFatalFault t); [reflexivity|discriminate].
  - intros Hi Hr. destruct sh; try discriminate.
    destruct t; simpl in Hr; try discriminate; auto.
  - intros Hi Ht. destruct sh; try discriminate.
    pose proof (step_by_table w ShIdle t n Hsh) as H.
    destruct Ht as [-> | ->]; exact H.
Qed.





(** *** Instances *)

Import Examples.

Lemma reachable_booted : reachable (Live bootedWorld).
Proof. exact (reach_boot production). Qed.

Lemma started_is_live : step 2 CallStart (Live bootedWorld) = Live startedWorld.
Proof. vm_compute. reflexivity. Qed.

Lemma reachable_started : reachable (Live startedWorld).
Proof.
  rewrite <- started_is_live.
  exact (reach_step (Live bootedWorld) CallStart 0 (reach_boot production)).
Qed.

Lemma phase_started : phase (Live startedWorld) = Running.
Proof. vm_compute. reflexivity. Qed.



Lemma phase_booted : phase (Live bootedWorld) = Idle.
Proof. vm_compute. reflexivity. Qed.

(** C4: SIGTERM on the process the constructor built. *)
Lemma transitions_follow_code_table_witness :
  exists w', step (2 + 0) Sigterm (Live bootedWorld) = Dead 0 w'.
Proof.
  exact (proj2 (proj2 (proj2 (proj2
           (transitions_follow_code_table (Live bootedWorld) Sigterm 0
              reachable_booted))))
           phase_booted (or_intror eq_refl)).
Defined.

(** C4 as stated fails: the process built by the constructor is idle, and
    SIGINT takes it to stopped in one step. *)
Lemma idle_to_stopped_counterexample :
  reachable (Live bootedWorld)
  /\ phase (Live bootedWorld) = Idle
  /\ phase (step 2 Sigint (Live bootedWorld)) = Stopped
  /\ exists w, step 2 Sigint (Live bootedWorld) = Dead 0 w.
Proof.
  split; [exact reachable_booted|]. split; [exact phase_booted|].
  split; [vm_compute; reflexivity|]. eexists. vm_compute. reflexivity.
Qed.




End LifecycleFacts.

(** ** Facts about the accessors *)

Module ObjectsFacts.

Import Objects.

Lemma replace_beyond : forall (h0 extra : Heap) a o,
  length h0 <= a ->
  replace a o (h0 ++ extra) = h0 ++ replace (a - length h0) o extra.
Proof.
  intros h0. induction h0 as [|x h0 IH]; intros extra a o Hle; simpl.
  - rewrite Nat.sub_0_r. reflexivity.
  - destruct a as [|a]; simpl in *; [lia|].
    rewrite IH by lia. reflexivity.
Qed.

Lemma untouched_exec : forall name version environment id nw c op,
  untouched name version environment id nw c ->
  untouched name version environment id nw (exec c op).
Proof.
  intros name version environment id nw c op (extra & Hh & Hc & Hs & Hheld).
  assert (Hmut : forall i (f : nat -> Heap -> Heap),
            (forall a h, f a h = h \/ exists o, f a h = replace a o h) ->
            untouched name version environment id nw (onHeld c i f)).
  { intros i f Hf. unfold onHeld.
    destruct (nth_error (held c) i) as [a|] eqn:Ha.
    2:{ exists extra. auto. }
    assert (Hge : 3 <= a).
    { rewrite Forall_forall in Hheld. apply Hheld. eapply nth_error_In; eauto. }
    destruct (Hf a (heap (store c))) as [Heq | [o Heq]]; rewrite Heq.
    - exists extra. simpl. auto.
    - exists (replace (a - 3) o extra). simpl. rewrite Hh.
      rewrite replace_beyond by (simpl; lia). simpl. auto. }
  destruct op as [| |i nm v|i nm].
  - unfold exec, getConfig, alloc.
    exists (extra ++ [spread (config (store c)) (heap (store c))]). simpl.
    rewrite Hh at 1. rewrite <- app_assoc. repeat split; auto.
    apply Forall_app. split; [exact Hheld|]. constructor; [|constructor].
    rewrite Hh, length_app. simpl. lia.
  - unfold exec, getSessionInfo, alloc.
    exists (extra ++ [spread (sessionInfo (store c)) (heap (store c))]). simpl.
    rewrite Hh at 1. rewrite <- app_assoc. repeat split; auto.
    apply Forall_app. split; [exact Hheld|]. constructor; [|constructor].
    rewrite Hh, length_app. simpl. lia.
  - apply Hmut. intros a h. unfold assign.
    destruct (nth_error h a) as [[t|ps]|]; eauto.
  - apply Hmut. intros a h. unfold deleteProp.
    destruct (nth_error h a) as [[t|ps]|]; eauto.
Qed.

Lemma untouched_execAll : forall name version environment id nw ops c,
  untouched name version environment id nw c ->
  untouched name version environment id nw (execAll ops c).
Proof.
  intros name version environment id nw ops. unfold execAll.
  induction ops as [|op ops IH]; intros c H; simpl; auto.
  apply IH. apply untouched_exec. exact H.
Qed.


Lemma setTimeVia_strings : forall a prop t h ps,
  nth_error h a = Some (Plain ps) ->
  Forall (fun p => exists s, snd p = PStr s) ps ->
  setTimeVia a prop t h = h.
Proof.
  intros a prop t h ps Ha Hps. unfold setTimeVia. rewrite Ha.
  destruct (find (fun p => String.eqb (fst p) prop) ps) as [[n v]|] eqn:Hf;
    [|reflexivity].
  apply find_some in Hf. destruct Hf as [Hin _].
  rewrite Forall_forall in Hps. destruct (Hps _ Hin) as [s Hv].
  simpl in Hv. subst v. reflexivity.
Qed.

(** X23.  The copies are shallow.  The record [getSessionInfo] returns
    holds the very Date the internal descriptor holds: setting the time
    through the returned record's [startTime] changes the start time the
    internal descriptor reads, whatever the caller did before.  The record
    [getConfig] returns holds only strings, so nothing reached through it
    changes what either internal record reads. *)
Theorem getSessionInfo_shares_the_date :
  forall name version environment id nw ops t prop,
  let c := execAll ops (mkClient (construct name version environment id nw) []) in
  let r := getSessionInfo (store c) in
  let g := getConfig (store c) in
  let cfg := [("name"%string, SStr name); ("version"%string, SStr version);
              ("environment"%string, SStr environment)] in
  let ses := fun time =>
             [("id"%string, SStr id); ("startTime"%string, SDate time);
              ("version"%string, SStr version);
              ("environment"%string, SStr environment)] in
  view (setTimeVia (fst r) "startTime" t (heap (snd r))) (sessionInfo (store c))
  = ses t
  /\ view (setTimeVia (fst r) "startTime" t (heap (snd r))) (config (store c))
     = cfg
  /\ view (setTimeVia (fst g) prop t (heap (snd g))) (sessionInfo (store c))
     = ses nw
  /\ view (setTimeVia (fst g) prop t (heap (snd g))) (config (store c)) = cfg.
Proof.
  intros name version environment id nw ops t prop c r g cfg ses.
  assert (H : untouched name version environment id nw c).
  { apply untouched_execAll. exists []. simpl. auto. }
  destruct H as (extra & Hh & Hc & Hs & _).
  assert (Hn : forall o, nth_error (extra ++ [o]) (length extra) = Some o).
  { intros o. rewrite nth_error_app2 by lia. rewrite Nat.sub_diag. reflexivity. }
  subst r g. unfold getConfig, getSessionInfo, alloc, spread.
  cbn [fst snd heap]. rewrite Hc, Hs, Hh. cbn [nth_error construct heap app].
  split; [|split].
  - unfold setTimeVia. cbn [length app Nat.add nth_error]. rewrite Hn.
    cbn. reflexivity.
  - unfold setTimeVia. cbn [length app Nat.add nth_error]. rewrite Hn.
    cbn. reflexivity.
  - rewrite (setTimeVia_strings _ prop t _
               [("name", PStr name); ("version", PStr version);
                ("environment", PStr environment)]).
    + split; reflexivity.
    + cbn [length app Nat.add nth_error]. apply Hn.
    + repeat constructor; eexists; reflexivity.
Qed.

End ObjectsFacts.

(** ** Further facts about the event bus *)

Module BusLaws.

Import Bus BusFacts.

Section Laws.

Context {U L : Type}.
Variable L_eq_dec : forall x y : L, {x = y} + {x <> y}.
Variable behave : L -> list Value -> World U L -> Outcome U L unit.

Lemma bus_removeAllListeners : forall (w : World U L),
  bus (removeAllListeners w)
  = setEvents [] (setInternal false false false (bus (removeAllListeners w))).
Proof.
  intros w. unfold removeAllListeners.
  destruct (onRemoveListener (bus w)); reflexivity.
Qed.

Lemma cleanup_leaves_nothing : forall (w : World U L),
  events (bus (cleanup w)) = []
  /\ onError (bus (cleanup w)) = false
  /\ onNewListener (bus (cleanup w)) = false
  /\ onRemoveListener (bus (cleanup w)) = false.
Proof.
  intros w. unfold cleanup. rewrite bus_removeAllListeners. simpl. auto.
Qed.

(** X1.  After [cleanup] no kind has a listener: every listener list is
    empty, [hasListeners] is false for every kind, [getListenersInfo]
    reports nothing (the bookkeeping keys are gone too), and a publish of
    any kind calls nothing and returns false. *)
Theorem cleanup_removes_every_listener : forall (w : World U L) k args,
  listeners k (cleanup w) = []
  /\ hasListeners k (cleanup w) = false
  /\ fst (getListenersInfo (cleanup w)) = []
  /\ fst (emitTyped behave k args (cleanup w)) = []
  /\ exists w', snd (emitTyped behave k args (cleanup w)) = Normal false w'.
Proof.
  intros w k args.
  destruct (cleanup_leaves_nothing w) as (He & H1 & H2 & H3).
  assert (Hl : listeners k (cleanup w) = []).
  { unfold listeners. rewrite He. reflexivity. }
  split; [exact Hl|]. split; [|split; [|split]].
  - unfold hasListeners, listenerCount. rewrite Hl. reflexivity.
  - unfold getListenersInfo, eventNames. simpl. rewrite H1, H2, H3, He. reflexivity.
  - unfold emitTyped, emit, originalEmit. rewrite bus_emitPrologue, He. reflexivity.
  - unfold emitTyped, emit, originalEmit. rewrite bus_emitPrologue, He. simpl. eauto.
Qed.

(** X2.  [cleanup] can be called again: the second call leaves the bus as
    the first left it and writes one record, its own. *)
Theorem cleanup_twice : forall (w : World U L),
  bus (cleanup (cleanup w)) = bus (cleanup w)
  /\ user (cleanup (cleanup w)) = user (cleanup w)
  /\ trace (cleanup (cleanup w))
     = trace (cleanup w) ++ [Log "eventbus" LDebug "Событие: eventbus:cleanup"].
Proof.
  intros w. destruct (cleanup_leaves_nothing w) as (He & H1 & H2 & H3).
  generalize dependent (cleanup w). intros w1 He H1 H2 H3.
  unfold cleanup, removeAllListeners, logEvent, push, snoc. simpl.
  rewrite H3. simpl.
  destruct w1 as [[mx lg wr e1 e2 e3 ev fr nx] tr u]. simpl in *. subst.
  auto.
Qed.

(** X3.  [cleanup] also removes the bookkeeping listeners of the bus, so a
    registration made after it is not logged any more: [onTyped] on a
    cleaned bus adds the listener and writes nothing, whereas on a newly
    built bus it writes the 'listener added' record. *)
Theorem registration_after_cleanup_is_silent : forall (w : World U L) k f,
  listeners k (onTyped k f (cleanup w)) = [mkReg f None]
  /\ trace (onTyped k f (cleanup w)) = trace (cleanup w)
  /\ forall m lg (u : U),
       trace (onTyped k f (construct m lg u))
       = trace (construct (L:=L) m lg u)
         ++ (if lg then [Log "eventbus" LDebug "Событие: newListener"] else [])
         ++ [Log "eventbus" LDebug ("Добавлен слушатель для: " ++ eventName k)%string].
Proof.
  intros w k f. destruct (cleanup_leaves_nothing w) as (He & H1 & H2 & H3).
  split; [|split].
  - unfold onTyped, on. rewrite listeners_addListener.
    unfold listeners. rewrite He. reflexivity.
  - unfold onTyped, on, addListener, emitNewListener. rewrite H2, He. reflexivity.
  - intros m lg u. destruct lg; reflexivity.
Qed.

(** X4.  Registering a listener and unsubscribing it again restores the
    listener list of the kind, with [on] as with [once] (an [off] also
    matches the wrapper of a [once] registration). *)
Theorem subscribe_then_unsubscribe : forall (w : World U L) k f,
  listeners k (offTyped L_eq_dec k f (onTyped k f w)) = listeners k w
  /\ listeners k (offTyped L_eq_dec k f (onceTyped k f w)) = listeners k w.
Proof.
  intros w k f.
  assert (Hm : forall r, target r = f -> matchesListener L_eq_dec f r = true).
  { intros r Hr. unfold matchesListener. destruct (L_eq_dec (target r) f); congruence. }
  split.
  - unfold offTyped, off.
    rewrite (listeners_removeMatching k _ (onTyped k f w) (listeners k w)
               (mkReg f None) []).
    + apply app_nil_r.
    + unfold onTyped, on. apply listeners_addListener.
    + apply Hm. reflexivity.
    + constructor.
  - unfold offTyped, off.
    rewrite (listeners_removeMatching k _ (onceTyped k f w) (listeners k w)
               (mkReg f (Some (nextWrapper (bus w)))) []).
    + apply app_nil_r.
    + unfold onceTyped, once. rewrite listeners_addListener. reflexivity.
    + apply Hm. reflexivity.
    + constructor.
Qed.

Lemma listeners_removeMatching_other : forall k k' p (w : World U L),
  k' <> k -> listeners k' (removeMatching k p w) = listeners k' w.
Proof.
  intros k k' p w Hne. unfold removeMatching.
  destruct (lookup k (events (bus w))) as [e|] eqn:Hl; auto.
  destruct (lastIndex p (regs e)) as [i|]; auto.
  unfold listeners. rewrite bus_emitRemoveListener. simpl.
  destruct (spliceOne (regs e) i) as [|a [|b r]].
  - rewrite lookup_delete_other by assumption. reflexivity.
  - rewrite lookup_store_other by assumption. reflexivity.
  - rewrite lookup_store_other by assumption. reflexivity.
Qed.

(** X5.  The registration methods work on one kind only: [onTyped],
    [onceTyped] and [offTyped] for [k] leave the listeners of every other
    kind as they were. *)
Theorem registration_touches_one_kind : forall (w : World U L) k k' f,
  k' <> k ->
  listeners k' (onTyped k f w) = listeners k' w
  /\ listeners k' (onceTyped k f w) = listeners k' w
  /\ listeners k' (offTyped L_eq_dec k f w) = listeners k' w.
Proof.
  intros w k k' f Hne. split; [|split].
  - unfold onTyped, on. apply listeners_addListener_other; exact Hne.
  - unfold onceTyped, once. rewrite listeners_addListener_other by exact Hne.
    reflexivity.
  - unfold offTyped, off. apply listeners_removeMatching_other; exact Hne.
Qed.

Lemma callsTo_map : forall f args (rs : list (Reg L)),
  callsTo L_eq_dec f (map (fun r => mkCall r args) rs)
  = registrationsOf L_eq_dec f rs.
Proof.
  intros f args rs. unfold callsTo, registrationsOf, toListener.
  induction rs as [|r rs IH]; simpl; [reflexivity|].
  destruct (matchesListener L_eq_dec f r); simpl; rewrite IH; reflexivity.
Qed.

(** X6.  There is no deduplication: registering the same function twice
    for a kind adds two registrations, and a publish calls the function
    once per registration (all listeners of the kind returning
    normally). *)
Theorem same_listener_twice_is_called_twice : forall (w : World U L) k f args,
  Forall (wellBehaved behave) (listeners k w) ->
  returnsNormally behave f ->
  registrationsOf L_eq_dec f (listeners k (onTyped k f (onTyped k f w)))
  = registrationsOf L_eq_dec f (listeners k w) + 2
  /\ callsTo L_eq_dec f
       (fst (emitTyped behave k args (onTyped k f (onTyped k f w))))
     = registrationsOf L_eq_dec f (listeners k w) + 2.
Proof.
  intros w k f args Hall Hf.
  assert (Hl : listeners k (onTyped k f (onTyped k f w))
               = listeners k w ++ [mkReg f None; mkReg f None]).
  { unfold onTyped, on. rewrite !listeners_addListener, <- app_assoc. reflexivity. }
  assert (Hr : registrationsOf L_eq_dec f (listeners k (onTyped k f (onTyped k f w)))
               = registrationsOf L_eq_dec f (listeners k w) + 2).
  { rewrite Hl. unfold registrationsOf. rewrite filter_app, length_app. simpl.
    unfold matchesListener. simpl. destruct (L_eq_dec f f); [reflexivity|congruence]. }
  split; [exact Hr|]. rewrite <- Hr.
  set (w2 := onTyped k f (onTyped k f w)) in *.
  assert (Hall2 : Forall (wellBehaved behave) (listeners k w2)).
  { rewrite Hl. apply Forall_app. split; [exact Hall|].
    repeat constructor; assumption. }
  unfold emitTyped, emit, originalEmit.
  assert (Hlk : listeners k (emitPrologue (eventName k) w2) = listeners k w2).
  { unfold listeners. rewrite bus_emitPrologue. reflexivity. }
  unfold listeners in Hlk, Hall2 |- *. rewrite bus_emitPrologue in *.
  destruct (lookup k (events (bus w2))) as [e|]; [|reflexivity].
  destruct (callAll_wellBehaved behave k args (regs e)
              (emitPrologue (eventName k) w2) Hall2) as [w' Hw'].
  rewrite Hw'. simpl. apply callsTo_map.
Qed.

(** X7.  A listener registered with [onceTyped] is already unsubscribed
    when it runs: on a kind without listeners, the publish after
    [onceTyped k f] calls [f] once, in a world where the kind has no
    listener any more and the wrapper is marked as run, and returns
    true. *)
Theorem once_listener_runs_unsubscribed :
  forall (w : World U L) k f args (result : World U L -> World U L),
  listeners k w = [] ->
  isFired (nextWrapper (bus w)) w = false ->
  (forall w1, behave f args w1 = Normal tt (result w1)) ->
  exists w2,
    hasListeners k w2 = false
    /\ isFired (nextWrapper (bus w)) w2 = true
    /\ emitTyped behave k args (onceTyped k f w)
       = ([mkCall (mkReg f (Some (nextWrapper (bus w)))) args],
          Normal true (result w2)).
Proof.
  intros w k f args result Hnil Hnf Hbeh.
  set (id := nextWrapper (bus w)) in *.
  set (w1 := onceTyped k f w).
  assert (Hl : listeners k w1 = [mkReg f (Some id)]).
  { unfold w1, onceTyped, once. rewrite listeners_addListener.
    unfold listeners in *. simpl. rewrite Hnil. reflexivity. }
  assert (Hf1 : isFired id (emitPrologue (eventName k) w1) = false).
  { unfold isFired. rewrite bus_emitPrologue. unfold w1, onceTyped, once, addListener.
    rewrite bus_emitNewListener. simpl.
    destruct (lookup k (events (bus w))) as [e|];
      [match goal with |- context [if ?c then _ else _] => destruct c end|];
      exact Hnf. }
  set (wp := emitPrologue (eventName k) w1) in *.
  assert (Hlp : listeners k wp = [mkReg f (Some id)]).
  { unfold wp, listeners. rewrite bus_emitPrologue. exact Hl. }
  set (wr := removeMatching k (matchesWrapper id) wp).
  assert (Hlr : listeners k wr = []).
  { unfold wr. apply (listeners_removeMatching k _ wp [] (mkReg f (Some id)) []).
    - exact Hlp.
    - unfold matchesWrapper. simpl. apply Nat.eqb_refl.
    - constructor. }
  exists (setBus (setFired id (bus wr)) wr). split; [|split].
  - unfold hasListeners, listenerCount. unfold listeners in *. simpl. rewrite Hlr. reflexivity.
  - unfold isFired. simpl. rewrite Nat.eqb_refl. reflexivity.
  - unfold emitTyped, emit, originalEmit. fold w1. fold wp.
    unfold listeners in Hlp.
    destruct (lookup k (events (bus wp))) as [e|] eqn:He; [|discriminate].
    rewrite Hlp. simpl. unfold invoke. simpl. rewrite Hf1. fold wr.
    rewrite Hbeh. reflexivity.
Qed.


(** X9.  The leak warning is not repeated: registering a listener writes
    no process warning when the ceiling is 0, when the kind has no
    listener yet, or when the array of the kind has already been
    reported. *)
Theorem leak_warning_is_not_repeated : forall (w : World U L) k f,
  maxListeners (bus w) = 0 \/ listenerCount k w = 0 \/ wasWarned k w = true ->
  filter isProcessWarning (trace (onTyped k f w))
  = filter isProcessWarning (trace w).
Proof.
  intros w k f H.
  assert (Hn : filter isProcessWarning (trace (emitNewListener (eventName k) w))
               = filter isProcessWarning (trace w)).
  { unfold emitNewListener, emitPrologue, logListenerAdd, logEvent, push, snoc.
    destruct (onNewListener (bus w)); [destruct (emitWrapped (bus w))|]; simpl;
      rewrite ?filter_app; simpl; rewrite ?app_nil_r; reflexivity. }
  unfold onTyped, on, addListener, listenerCount, listeners, wasWarned in *.
  rewrite bus_emitNewListener.
  destruct (lookup k (events (bus w))) as [e|]; [|exact Hn].
  match goal with |- context [if ?c then _ else _] => destruct c eqn:Hc end;
    [|exact Hn].
  exfalso. apply andb_prop in Hc as [Hc Hw]. apply andb_prop in Hc as [Hpos Hover].
  apply Nat.ltb_lt in Hpos. apply Nat.ltb_lt in Hover.
  rewrite length_app in Hover. simpl in Hover.
  destruct H as [H | [H | H]].
  - lia.
  - lia.
  - rewrite H in Hw. discriminate.
Qed.

(** X10.  The listener count follows the registrations: [onceTyped] adds
    one, [offTyped] takes one away when the function is registered for
    the kind and none otherwise. *)
Theorem listenerCount_bookkeeping : forall (w : World U L) k f,
  listenerCount k (onceTyped k f w) = S (listenerCount k w)
  /\ listenerCount k (offTyped L_eq_dec k f w)
     = listenerCount k w
       - (if existsb (matchesListener L_eq_dec f) (listeners k w) then 1 else 0).
Proof.
  intros w k f. split.
  - unfold listenerCount, onceTyped, once. rewrite listeners_addListener.
    rewrite length_app. unfold listeners. simpl. lia.
  - unfold listenerCount.
    destruct (lastIndex (matchesListener L_eq_dec f) (listeners k w)) as [i|] eqn:Hi.
    + apply lastIndex_some in Hi as (l1 & x & l2 & Hl & Hx & Hl2 & _).
      unfold offTyped, off.
      rewrite (listeners_removeMatching k _ w l1 x l2 Hl Hx Hl2).
      rewrite Hl, existsb_app. simpl. rewrite Hx, orb_true_r.
      rewrite !length_app. simpl. lia.
    + apply lastIndex_none in Hi.
      unfold offTyped, off. rewrite removeMatching_absent by exact Hi.
      assert (He : existsb (matchesListener L_eq_dec f) (listeners k w) = false).
      { clear - Hi. induction Hi as [|x l Hx _ IH]; simpl; [reflexivity|].
        rewrite Hx, IH. reflexivity. }
      rewrite He. lia.
Qed.

End Laws.

(** *** Instances *)

Import Examples.

(** X5 on the bus with listeners on 'terminal:key' only. *)
Lemma registration_touches_one_kind_witness :
  listeners app_stop (onTyped terminal_key 9 keyBus) = listeners app_stop keyBus
  /\ listeners app_stop (onceTyped terminal_key 9 keyBus) = listeners app_stop keyBus
  /\ listeners app_stop (offTyped Nat.eq_dec terminal_key 7 keyBus)
     = listeners app_stop keyBus.
Proof.
  refine (registration_touches_one_kind Nat.eq_dec keyBus terminal_key app_stop _ _).
  discriminate.
Defined.

(** X6 with the listeners that return at once. *)
Lemma same_listener_twice_is_called_twice_witness :
  registrationsOf Nat.eq_dec 0
    (listeners terminal_resize (onTyped terminal_resize 0 (onTyped terminal_resize 0 resizeBus)))
  = registrationsOf Nat.eq_dec 0 (listeners terminal_resize resizeBus) + 2
  /\ callsTo Nat.eq_dec 0
       (fst (emitTyped quiet terminal_resize resizeArgs
               (onTyped terminal_resize 0 (onTyped terminal_resize 0 resizeBus))))
     = registrationsOf Nat.eq_dec 0 (listeners terminal_resize resizeBus) + 2.
Proof.
  refine (same_listener_twice_is_called_twice Nat.eq_dec quiet resizeBus
            terminal_resize 0 resizeArgs _ _).
  - repeat constructor; intros args w; exists w; reflexivity.
  - intros args w; exists w; reflexivity.
Defined.

(** X7 on a newly built bus. *)
Lemma once_listener_runs_unsubscribed_witness :
  exists w2,
    hasListeners app_start w2 = false
    /\ isFired (nextWrapper (bus freshBus)) w2 = true
    /\ emitTyped quiet app_start [] (onceTyped app_start 3 freshBus)
       = ([mkCall (mkReg 3 (Some (nextWrapper (bus freshBus)))) []],
          Normal true ((fun w => w) w2)).
Proof.
  refine (once_listener_runs_unsubscribed quiet freshBus app_start 3 []
            (fun w => w) eq_refl eq_refl _).
  intros w1. reflexivity.
Defined.

(** X9 on the default bus after 51 registrations for one kind. *)
Lemma leak_warning_is_not_repeated_witness :
  filter isProcessWarning
    (trace (onTyped app_error 1 (Nat.iter 51 (onTyped app_error 1) freshBus)))
  = filter isProcessWarning (trace (Nat.iter 51 (onTyped app_error 1) freshBus)).
Proof.
  refine (leak_warning_is_not_repeated (Nat.iter 51 (onTyped app_error 1) freshBus)
            app_error 1 _).
  right. right. vm_compute. reflexivity.
Defined.

End BusLaws.

(** ** Further facts about the lifecycle *)

Module LifecycleLaws.

Import Bus Lifecycle Surface Examples LifecycleFacts.

Ltac finish_frame :=
  cbv beta iota delta [trace bus user];
  unfold orb, negb;
  repeat match goal with
         | H : String.eqb _ _ = _ |- _ => rewrite H
         | H : isDevelopment _ = _ |- _ => rewrite H
         | H : (if _ then _ else _) = _ |- _ => rewrite H
         end;
  eexists; split; [delta_tac|];
  repeat split; try reflexivity;
  try (intros; discriminate); try (intros; congruence).

(** What one trigger adds to the trace and what it leaves alone. *)
Lemma react_frame : forall sh t n w,
  hasShape sh w ->
  match react (2 + n) t w with
  | Normal _ w' | Exits _ w' =>
      exists delta,
        trace w' = trace w ++ delta
        /\ count isInputGrab delta = grabsIn sh t
        /\ count isKeyAttach delta = grabsIn sh t
        /\ (isQuietTrigger t = true -> bus w' = bus w /\ user w' = user w)
        /\ (sh <> ShRunning -> forall name, t = TermKey name -> delta = [])
  | _ => True
  end.
Proof.
  intros sh t n [b tr [run st cfg gr ini [co un gi mo] ses tm]] [Hg (mx & lg & H)].
  simpl in Hg. subst gi.
  destruct sh; simpl in H; destruct H as (Hb & Hr & Hi & Hgr & Htm); subst.
  - destruct mx as [|[|mx]]; destruct lg; destruct t;
      unfold grabsIn, isQuietTrigger;
      eval_react; finish_frame.
  - destruct mx as [|[|mx]]; destruct lg; destruct t;
      unfold grabsIn, isQuietTrigger;
      eval_react; finish_frame.
  - destruct tm as [|d tm]; [congruence|].
    destruct mx as [|[|mx]]; destruct lg; destruct t;
      unfold grabsIn, isQuietTrigger;
      eval_react; finish_frame.
Qed.

Lemma boot_trace_ungrabbed : forall env,
  count isInputGrab (trace (boot env)) = 0
  /\ count isKeyAttach (trace (boot env)) = 0.
Proof.
  intros [ne mx ver col uni sid nw]. unfold boot.
  generalize (match NODE_ENV (mkEnv ne mx ver col uni sid nw) with
              | Some e => isDevelopment e | None => false end).
  intros lg. cbv [EVENT_BUS_MAX_LISTENERS].
  destruct mx as [|[|mx]]; destruct lg; vm_compute; auto.
Qed.

Lemma grabsIn_next : forall sh t sh',
  next sh t = Some sh' -> grabbed sh + grabsIn sh t = grabbed sh'.
Proof.
  intros sh t sh' H. destruct sh; simpl in *.
  - destruct t; inversion H; reflexivity.
  - destruct (isExitTrigger t || isFatalFault t); inversion H; reflexivity.
  - destruct t; inversion H; reflexivity.
Qed.

Lemma reachable_grabs : forall s,
  reachable s ->
  match s with
  | Live w =>
      exists sh, hasShape sh w
        /\ count isInputGrab (trace w) = grabbed sh
        /\ count isKeyAttach (trace w) = grabbed sh
  | Dead c w =>
      count isInputGrab (trace w) <= 1 /\ count isKeyAttach (trace w) <= 1
  | _ => False
  end.
Proof.
  intros s H. induction H as [env|s t n H IH].
  - exists ShIdle. split; [apply boot_is_idle|]. apply boot_trace_ungrabbed.
  - destruct s as [w|c w|e w|]; [|exact IH|exact IH|exact IH].
    cbv beta iota in IH. destruct IH as (sh & Hsh & Hg & Hk).
    pose proof (react_follows_table sh t n w Hsh) as Ht.
    pose proof (react_frame sh t n w Hsh) as Hd.
    rewrite step_live. unfold settle.
    destruct (next sh t) as [sh'|] eqn:Hn;
      destruct (react (2 + n) t w) as [a w'|e w'|c w'|]; try contradiction.
    + destruct Hd as (delta & Htr & Hc1 & Hc2 & _).
      exists sh'. split; [exact Ht|].
      rewrite Htr, !count_app, Hg, Hk, Hc1, Hc2.
      rewrite (grabsIn_next sh t sh' Hn). auto.
    + destruct Hd as (delta & Htr & Hc1 & Hc2 & _).
      rewrite Htr, !count_app, Hg, Hk, Hc1, Hc2.
      destruct sh, t; simpl in *; try discriminate; try lia;
        destruct (_ || _); discriminate.
Qed.

Lemma running_shape : forall w,
  reachable (Live w) -> phase (Live w) = Running -> hasShape ShRunning w.
Proof.
  intros w H Hp. destruct (reachable_shape w H) as (sh & Hsh & Hph).
  rewrite Hp in Hph. destruct sh; simpl in Hph; try discriminate. exact Hsh.
Qed.

Lemma stopping_shape : forall w,
  reachable (Live w) -> phase (Live w) = Stopping -> hasShape ShStopping w.
Proof.
  intros w H Hp. destruct (reachable_shape w H) as (sh & Hsh & Hph).
  rewrite Hp in Hph. destruct sh; simpl in Hph; try discriminate. exact Hsh.
Qed.

Lemma stopping_is_live : step 2 Sigint (Live startedWorld) = Live stoppingWorld.
Proof. vm_compute. reflexivity. Qed.

Lemma reachable_stopping : reachable (Live stoppingWorld).
Proof.
  rewrite <- stopping_is_live.
  exact (reach_step (Live startedWorld) Sigint 0 reachable_started).
Qed.

Lemma phase_stopping : phase (Live stoppingWorld) = Stopping.
Proof. vm_compute. reflexivity. Qed.

(** X11.  Over the whole life of the process the terminal input is
    grabbed at most once and the key handler is attached at most once,
    however often [start()] is called; and at every moment the flag
    [isInputGrabbed] says whether the grabs outnumber the releases. *)
Theorem input_is_grabbed_once : forall s,
  reachable s ->
  count isInputGrab (traceOf s) <= 1
  /\ count isKeyAttach (traceOf s) <= 1
  /\ (forall w, s = Live w ->
        count isInputGrab (trace w)
        = count isInputRelease (trace w)
          + (if isInputGrabbed (user w) then 1 else 0)).
Proof.
  intros s H.
  pose proof (reachable_grabs s H) as Hg.
  pose proof (reachable_trace s H) as Hr.
  destruct s as [w|c w|e w|]; try contradiction; simpl.
  - destruct Hg as (sh & Hsh & Hg & Hk).
    destruct Hr as (sh2 & Hsh2 & Hrel & _).
    assert (sh2 = sh).
    { apply (shape_of_phase sh w Hsh). symmetry. apply phase_of_shape. exact Hsh2. }
    subst sh2. rewrite Hg, Hk.
    split; [destruct sh; simpl; lia|]. split; [destruct sh; simpl; lia|].
    intros w0 Hw. inversion Hw; subst w0. rewrite Hg, Hrel.
    destruct Hsh as [_ (mx & lg & Hsh)].
    destruct sh; simpl in Hsh; destruct Hsh as (_ & _ & _ & Hgr & _);
      rewrite Hgr; reflexivity.
  - destruct Hg as [Hg Hk]. repeat split; try assumption. intros w0 Hw. discriminate.
Qed.

Lemma input_is_grabbed_once_witness :
  count isInputGrab (traceOf (Live startedWorld)) <= 1
  /\ count isKeyAttach (traceOf (Live startedWorld)) <= 1
  /\ (forall w, Live startedWorld = Live w ->
        count isInputGrab (trace w)
        = count isInputRelease (trace w)
          + (if isInputGrabbed (user w) then 1 else 0)).
Proof.
  exact (input_is_grabbed_once (Live startedWorld) reachable_started).
Defined.

(** X12.  A resize of the terminal, and a key other than Ctrl-X and
    Ctrl-C, change neither the listener table nor any field of the two
    objects: the process goes on in the state it was in, whatever that
    state is. *)
Theorem quiet_triggers_change_nothing : forall w t n,
  reachable (Live w) ->
  isQuietTrigger t = true ->
  exists w',
    step (2 + n) t (Live w) = Live w'
    /\ bus w' = bus w /\ user w' = user w.
Proof.
  intros w t n H Hq. destruct (reachable_shape w H) as (sh & Hsh & _).
  pose proof (react_follows_table sh t n w Hsh) as Ht.
  pose proof (react_frame sh t n w Hsh) as Hd.
  rewrite step_live. unfold settle.
  destruct (react (2 + n) t w) as [a w'|e w'|c w'|].
  - destruct Hd as (delta & _ & _ & _ & Hf & _).
    exists w'. split; [reflexivity|]. apply Hf. exact Hq.
  - destruct (next sh t); contradiction.
  - exfalso. destruct sh, t; simpl in *; try discriminate; try contradiction;
      destruct (String.eqb name "CTRL_X" || String.eqb name "CTRL_C");
      simpl in *; try discriminate; contradiction.
  - destruct (next sh t); contradiction.
Qed.

Lemma quiet_triggers_change_nothing_witness :
  exists w',
    step (2 + 0) (TermResize 80 24) (Live startedWorld) = Live w'
    /\ bus w' = bus startedWorld /\ user w' = user startedWorld.
Proof.
  exact (quiet_triggers_change_nothing startedWorld (TermResize 80 24) 0
           reachable_started eq_refl).
Defined.

(** X13.  In a running process an exit trigger (SIGINT, SIGTERM, Ctrl-X,
    Ctrl-C) schedules the exit callback twice, once by each listener of
    'terminal:exit', and a fatal fault schedules it once; either way the
    process is then stopping. *)
Theorem exit_trigger_schedules_the_exit_twice : forall w t n,
  reachable (Live w) ->
  phase (Live w) = Running ->
  isExitTrigger t || isFatalFault t = true ->
  exists w' delta,
    step (2 + n) t (Live w) = Live w'
    /\ trace w' = trace w ++ delta
    /\ count isExitScheduling delta = (if isExitTrigger t then 2 else 1)
    /\ phase (Live w') = Stopping.
Proof.
  intros w t n H Hp Ht.
  pose proof (running_shape w H Hp) as Hsh.
  pose proof (react_follows_table ShRunning t n w Hsh) as Htab.
  pose proof (react_delta ShRunning t n w Hsh) as Hd.
  rewrite step_live. unfold settle. simpl next in Htab. rewrite Ht in Htab.
  destruct (react (2 + n) t w) as [a w'|e w'|c w'|]; try contradiction.
  destruct Hd as (delta & Htr & _ & _ & Hs & _).
  exists w', delta. split; [reflexivity|]. split; [exact Htr|].
  split; [|exact (phase_of_shape ShStopping w' Htab)].
  rewrite Hs. unfold schedulingsIn.
  destruct (isExitTrigger t); [reflexivity|]. simpl in Ht. rewrite Ht. reflexivity.
Qed.

Lemma exit_trigger_schedules_the_exit_twice_witness :
  exists w' delta,
    step (2 + 0) Sigint (Live startedWorld) = Live w'
    /\ trace w' = trace startedWorld ++ delta
    /\ count isExitScheduling delta = (if isExitTrigger Sigint then 2 else 1)
    /\ phase (Live w') = Stopping.
Proof.
  exact (exit_trigger_schedules_the_exit_twice startedWorld Sigint 0
           reachable_started phase_started eq_refl).
Defined.

(** X14.  At every moment of the process's life the orchestrator's
    [isAppRunning()] and the terminal manager's [isReady()] agree, and
    they are true exactly in the running state. *)
Theorem isAppRunning_agrees_with_isReady : forall w,
  reachable (Live w) ->
  DTraderCrypto.isAppRunning w = isReady w
  /\ (DTraderCrypto.isAppRunning w = true <-> phase (Live w) = Running).
Proof.
  intros w H. destruct (reachable_shape w H) as (sh & [_ (mx & lg & Hsh)] & _).
  unfold DTraderCrypto.isAppRunning, isReady, phase.
  destruct sh; simpl in Hsh; destruct Hsh as (_ & Hr & Hi & Hg & Htm);
    rewrite Hr, Hi, Hg.
  - rewrite Htm. split; [reflexivity|]. split; discriminate.
  - rewrite Htm. split; [reflexivity|]. split; reflexivity.
  - destruct (timers (user w)); [congruence|].
    split; [reflexivity|]. split; discriminate.
Qed.

Lemma isAppRunning_agrees_with_isReady_witness :
  DTraderCrypto.isAppRunning startedWorld = isReady startedWorld
  /\ (DTraderCrypto.isAppRunning startedWorld = true
      <-> phase (Live startedWorld) = Running).
Proof.
  exact (isAppRunning_agrees_with_isReady startedWorld reachable_started).
Defined.

(** X15.  Once the shutdown sequence has run nothing brings the process
    back: whatever arrives before the exit callback ([start()] included)
    leaves the listener table and every field as they are, and the exit
    callback ends the process with status 0. *)
Theorem no_restart_after_shutdown : forall w n,
  reachable (Live w) ->
  phase (Live w) = Stopping ->
  (forall t, t <> TimerFires ->
     exists w',
       step (2 + n) t (Live w) = Live w'
       /\ bus w' = bus w /\ user w' = user w
       /\ phase (Live w') = Stopping)
  /\ DTraderCrypto.isAppRunning w = false
  /\ exists w', step (2 + n) TimerFires (Live w) = Dead 0 w'.
Proof.
  intros w n H Hp.
  pose proof (stopping_shape w H Hp) as Hsh.
  split; [|split].
  - intros t Ht.
    pose proof (react_follows_table ShStopping t n w Hsh) as Htab.
    pose proof (react_delta ShStopping t n w Hsh) as Hd.
    rewrite step_live. unfold settle.
    assert (Hn : next ShStopping t = Some ShStopping)
      by (destruct t; try reflexivity; congruence).
    rewrite Hn in Htab.
    destruct (react (2 + n) t w) as [a w'|e w'|c w'|]; try contradiction.
    destruct Hd as (delta & _ & _ & _ & _ & _ & Hf).
    destruct (Hf eq_refl Ht) as [Hb Hu].
    exists w'. repeat split; try assumption.
    exact (phase_of_shape ShStopping w' Htab).
  - destruct Hsh as [_ (mx & lg & _ & Hr & _)]. exact Hr.
  - exact (step_by_table w ShStopping TimerFires n Hsh).
Qed.

Lemma no_restart_after_shutdown_witness :
  (forall t, t <> TimerFires ->
     exists w',
       step (2 + 0) t (Live stoppingWorld) = Live w'
       /\ bus w' = bus stoppingWorld /\ user w' = user stoppingWorld
       /\ phase (Live w') = Stopping)
  /\ DTraderCrypto.isAppRunning stoppingWorld = false
  /\ exists w', step (2 + 0) TimerFires (Live stoppingWorld) = Dead 0 w'.
Proof.
  exact (no_restart_after_shutdown stoppingWorld 0 reachable_stopping phase_stopping).
Defined.

Lemma publish_app_error : forall sh e n w,
  hasShape sh w ->
  exists r w' delta,
    snd (emitTyped (behaviour (1 + n)) app_error [VErr e] w) = Normal r w'
    /\ bus w' = bus w /\ user w' = user w
    /\ trace w' = trace w ++ delta
    /\ r = negb (isNullish e) && match sh with ShStopping => false | _ => true end
    /\ count isErrorScreen delta = (if r then 1 else 0)
    /\ count isInputRelease delta = 0
    /\ count isBusReset delta = 0
    /\ count isExitScheduling delta = 0.
Proof.
  intros sh e n [b tr [run st cfg gr ini [co un gi mo] ses tm]] [Hg (mx & lg & H)].
  simpl in Hg. subst gi.
  destruct sh; simpl in H; destruct H as (Hb & Hr & Hi & Hgr & Htm); subst;
    try (destruct tm as [|d tm]; [congruence|]);
    destruct mx as [|[|mx]]; destruct lg; destruct e;
    (match goal with
     | |- context [emitTyped ?f ?k ?a ?w] =>
         let o := fresh "o" in
         let E := fresh "E" in
         remember (snd (emitTyped f k a w)) as o eqn:E;
         cbv -[snoc isDevelopment String.eqb] in E;
         repeat match type of E with
                | context [if ?b then _ else _] => destruct b eqn:?
                end;
         subst o
     end);
    eexists _, _, _; (split; [reflexivity|]);
    cbv beta iota delta [trace bus user];
    (split; [reflexivity|]); (split; [reflexivity|]);
    (split; [delta_tac|]);
    repeat split; reflexivity.
Qed.

(** X16.  Publishing 'app:error' is never fatal: [emitTyped] returns, the
    listener table and every field of the two objects are as before, no
    step of the shutdown sequence runs, and the error screen is shown once
    exactly when [emitTyped] returns true, that is when a listener is
    still registered and the value published is not [null] or
    [undefined] (for these the listener itself throws a TypeError, which
    [emitTyped] catches and logs). *)
Theorem app_error_is_not_fatal : forall w e n,
  reachable (Live w) ->
  exists r w' delta,
    snd (emitTyped (behaviour (1 + n)) app_error [VErr e] w) = Normal r w'
    /\ bus w' = bus w /\ user w' = user w
    /\ trace w' = trace w ++ delta
    /\ r = negb (isNullish e)
           && match phase (Live w) with Stopping => false | _ => true end
    /\ count isErrorScreen delta = (if r then 1 else 0)
    /\ count isInputRelease delta = 0
    /\ count isBusReset delta = 0
    /\ count isExitScheduling delta = 0.
Proof.
  intros w e n H. destruct (reachable_shape w H) as (sh & Hsh & Hph).
  destruct (publish_app_error sh e n w Hsh) as (r & w' & delta & Ho & Hrest).
  exists r, w', delta. split; [exact Ho|].
  rewrite Hph. destruct sh; exact Hrest.
Qed.

Lemma app_error_is_not_fatal_witness :
  exists r w' delta,
    snd (emitTyped (behaviour (1 + 0)) app_error
           [VErr (ErrorObj "Error" "rate limit")] startedWorld) = Normal r w'
    /\ bus w' = bus startedWorld /\ user w' = user startedWorld
    /\ trace w' = trace startedWorld ++ delta
    /\ r = negb (isNullish (ErrorObj "Error" "rate limit"))
           && match phase (Live startedWorld) with Stopping => false | _ => true end
    /\ count isErrorScreen delta = (if r then 1 else 0)
    /\ count isInputRelease delta = 0
    /\ count isBusReset delta = 0
    /\ count isExitScheduling delta = 0.
Proof.
  exact (app_error_is_not_fatal startedWorld (ErrorObj "Error" "rate limit") 0
           reachable_started).
Defined.

End LifecycleLaws.

(** ** Facts about the entry point and the text helpers *)

Module SurfaceFacts.

Import Bus Lifecycle Surface Examples LifecycleFacts.







(** X19.  [centerText] never truncates and never exceeds the width by
    padding: the result is as long as the longer of the text and the
    width; it is the text between two runs of spaces that together fill
    the width, the right run as long as the left or one longer; and a text
    that is already as long as the width comes back as it is. *)
Theorem centerText_centres : forall text width,
  length (centerText text width) = Nat.max width (length text)
  /\ (exists l r,
        centerText text width = repeat space l ++ text ++ repeat space r
        /\ l + length text + r = Nat.max width (length text)
        /\ l <= r <= l + 1)
  /\ (width <= length text -> centerText text width = text).
Proof.
  intros text width. unfold centerText.
  rewrite Nat.max_0_l.
  set (p := width - length text).
  assert (Hd : p / 2 <= p - p / 2 <= p / 2 + 1).
  { pose proof (Nat.div_mod_eq p 2) as E.
    pose proof (Nat.mod_upper_bound p 2 ltac:(lia)) as B. lia. }
  assert (Hle : p / 2 <= p) by (apply Nat.Div0.div_le_upper_bound; lia).
  split; [|split].
  - rewrite !length_app, !repeat_length. unfold p in *. lia.
  - exists (p / 2), (p - p / 2). split; [reflexivity|]. split; [|exact Hd].
    unfold p in *. lia.
  - intros H. replace p with 0 by (unfold p; lia). simpl. apply app_nil_r.
Qed.

End SurfaceFacts.

(** ** Facts about the masking of log metadata *)

Module MaskingFacts.

Import Masking.

Section Facts.

Variable toLowerCase : string -> string.

Lemma Json_induction : forall P : Json -> Prop,
  P JNull -> P JUndefined -> (forall b, P (JBool b)) -> (forall z, P (JNum z)) ->
  (forall s, P (JStr s)) -> (forall t, P (JFun t)) ->
  (forall items, Forall P items -> P (JArr items)) ->
  (forall entries, Forall (fun p => P (snd p)) entries -> P (JObj entries)) ->
  forall v, P v.
Proof.
  intros P Hn Hu Hb Hz Hs Hf Ha Ho.
  fix IH 1. intros [| |b|z|s|t|items|entries];
    [exact Hn|exact Hu|apply Hb|apply Hz|apply Hs|apply Hf| |].
  - apply Ha. induction items as [|x items IHi]; constructor; [apply IH|exact IHi].
  - apply Ho. induction entries as [|x entries IHe]; constructor; [apply IH|exact IHe].
Qed.



(** X21.  After masking no string other than the mask is left directly
    under a sensitive key, at any depth of objects and arrays. *)
Theorem masked_value_exposes_nothing : forall v,
  exposed toLowerCase (maskSensitiveData toLowerCase v) = false.
Proof.
  induction v as [| |b|z|s|t|items IH|entries IH] using Json_induction;
    try reflexivity; simpl.
  - induction IH as [|x items Hx _ IHi]; simpl; [reflexivity|].
    rewrite Hx. exact IHi.
  - induction IH as [|[k x] entries Hx _ IHe]; simpl; [reflexivity|].
    rewrite IHe, orb_false_r. simpl in Hx.
    destruct (isSensitive toLowerCase k) eqn:Hk; destruct x; simpl; rewrite ?Hk;
      try reflexivity; exact Hx.
Qed.


End Facts.

End MaskingFacts.
